(** * wifiXX24: the sample pipeline of the patient-monitor emulator

    A shallow embedding of [src/main.cpp]: the waveform tables, the
    [SimpleFIFO] ring buffer, the timer handler [TimerHandler0] that
    produces samples, the button tracker [debounceAndToggle] and the
    control-surface readings of [loop].

    Conventions.  A C++ [int] or [long] is a [Z]; the handler and the
    queue only ever hold values between 0 and a small bound, so signed
    arithmetic never leaves the 32-bit range (this is part of the
    invariants proved below).  [unsigned long] values are [Z] reduced
    modulo 2^32 wherever the source computes with them.  A [uint8_t]
    sample is a [Z]; a C array is a [list] read with stdpp's lookup and
    written with stdpp's insert. *)

From Stdlib Require Import ZArith Lia Bool QArith Qabs.
From Stdlib Require Import Floats.SpecFloat.
From stdpp Require Import base list.

Local Open Scope Z_scope.

(** ** Waveform tables *)

Definition EKG : list Z :=
  [65; 65; 65; 65; 70; 76; 74; 70; 65; 63; 65; 65; 65; 65; 48; 230;
   40; 65; 65; 65; 74; 90; 100; 102; 100; 95; 80; 70; 65; 65; 65; 65].

Definition ARY : list Z :=
  [65; 70; 67; 61; 70; 72; 74; 76; 70; 68; 67; 65; 63; 55; 48; 10;
   15; 65; 67; 70; 74; 80; 100; 102; 100; 95; 80; 70; 65; 65; 65; 65].

Definition deadPoints : list Z :=
  [65; 65; 65; 65; 65; 65; 65; 65; 65; 65; 65; 65; 65; 65; 65; 65;
   65; 65; 65; 65; 65; 65; 65; 65; 65; 65; 65; 65; 65; 65; 65; 65].

(** [sizeof(EKG)]: the elements are one byte wide, so the size in bytes
    is the number of elements. *)
Definition sizeof_EKG : Z := Z.of_nat (length EKG).

(** [a[i]] for an [int] index.  C++ leaves an access outside the array
    undefined; the model reads a fixed default value there, and the
    theorems below show that the program never makes such an access. *)
Definition array_get (a : list Z) (i : Z) : Z := a !!! Z.to_nat i.

(** [a[i] = v]. *)
Definition array_set (a : list Z) (i : Z) (v : Z) : list Z :=
  <[Z.to_nat i := v]> a.

(** ** The ring buffer [SimpleFIFO] *)

Record SimpleFIFO : Type := mkFIFO {
  buffer : list Z;
  frontIndex : Z;
  rearIndex : Z;
  itemCount : Z
}.

Section Capacity.

(** The capacity; [const int maxSize = 512] in the source. *)
Variable maxSize : Z.

(** The constructor sets the three integers; the buffer of the global
    [valueFifo] has static storage and so starts zeroed. *)
Definition SimpleFIFO_new : SimpleFIFO :=
  mkFIFO (replicate (Z.to_nat maxSize) 0) 0 0 0.

(** [bool enqueue(uint8_t data)]: the result and the queue afterwards. *)
Definition enqueue (q : SimpleFIFO) (data : Z) : bool * SimpleFIFO :=
  if itemCount q <? maxSize then
    (true,
     mkFIFO (array_set (buffer q) (rearIndex q) data)
            (frontIndex q)
            (Z.rem (rearIndex q + 1) maxSize)
            (itemCount q + 1))
  else (false, q).

(** [bool dequeue(uint8_t &data)]: the result, the referenced variable
    afterwards and the queue afterwards. *)
Definition dequeue (q : SimpleFIFO) (data : Z) : bool * Z * SimpleFIFO :=
  if itemCount q >? 0 then
    (true,
     array_get (buffer q) (frontIndex q),
     mkFIFO (buffer q)
            (Z.rem (frontIndex q + 1) maxSize)
            (rearIndex q)
            (itemCount q - 1))
  else (false, data, q).

(** [bool isEmpty() const]. *)
Definition isEmpty (q : SimpleFIFO) : bool := itemCount q =? 0.

(** *** Calls and what they report *)

Inductive call : Type :=
| Enqueue (data : Z)
| Dequeue.

Inductive outcome : Type :=
| Accepted (data : Z)
| Dropped (data : Z)
| Delivered (data : Z)
| Absent.

(** One call; a dequeue is made on a fresh local variable, as [loop]
    does with [uint8_t val]. *)
Definition do_call (q : SimpleFIFO) (c : call) : SimpleFIFO * outcome :=
  match c with
  | Enqueue d =>
      let '(ok, q') := enqueue q d in
      (q', if ok then Accepted d else Dropped d)
  | Dequeue =>
      let '(ok, v, q') := dequeue q 0 in
      (q', if ok then Delivered v else Absent)
  end.

Fixpoint run (q : SimpleFIFO) (cs : list call) : SimpleFIFO * list outcome :=
  match cs with
  | [] => (q, [])
  | c :: cs' =>
      let '(q1, o) := do_call q c in
      let '(q2, os) := run q1 cs' in
      (q2, o :: os)
  end.

(** The samples the queue took, in call order. *)
Fixpoint accepted (os : list outcome) : list Z :=
  match os with
  | [] => []
  | Accepted d :: os' => d :: accepted os'
  | _ :: os' => accepted os'
  end.

(** The samples the queue handed out, in call order. *)
Fixpoint delivered (os : list outcome) : list Z :=
  match os with
  | [] => []
  | Delivered d :: os' => d :: delivered os'
  | _ :: os' => delivered os'
  end.

(** *** Representation invariant and abstraction *)

Record fifo_inv (q : SimpleFIFO) : Prop := mkInv {
  inv_length : length (buffer q) = Z.to_nat maxSize;
  inv_front : 0 <= frontIndex q < maxSize;
  inv_count : 0 <= itemCount q <= maxSize;
  inv_rear : rearIndex q = (frontIndex q + itemCount q) mod maxSize
}.

(** The slot holding the [k]-th oldest sample. *)
Definition slot (q : SimpleFIFO) (k : nat) : Z :=
  (frontIndex q + Z.of_nat k) mod maxSize.

(** The queued samples, oldest first. *)
Definition contents (q : SimpleFIFO) : list Z :=
  (fun k => array_get (buffer q) (slot q k)) <$> seq 0 (Z.to_nat (itemCount q)).

End Capacity.

Definition maxSize : Z := 512.

Definition valueFifo_init : SimpleFIFO := SimpleFIFO_new maxSize.

(** The queue of the program after 512 accepted samples. *)
Definition valueFifo_full : SimpleFIFO :=
  fst (run maxSize valueFifo_init (replicate 512 (Enqueue 65))).

(** ** The sample producer [TimerHandler0] *)

(** The globals the handler reads and never writes. *)
Record globals : Type := mkGlobals {
  delayMillis : Z;
  isAlive : bool;
  isEKG : bool
}.

(** The handler's two function-local statics and the queue it fills. *)
Record producer : Type := mkProducer {
  xbyte : Z;
  index : Z;
  valueFifo : SimpleFIFO
}.

Definition producer_init : producer := mkProducer 0 0 valueFifo_init.

(** Conversion of an [int] to the 32-bit [size_t] of the target. *)
Definition to_size_t (n : Z) : Z := n mod 2 ^ 32.

(** [(xbyte + 1) % delayMillis], the value tested against zero. *)
Definition next_xbyte (g : globals) (st : producer) : Z :=
  Z.rem (xbyte st + 1) (delayMillis g).

(** [(index + 1) % sizeof(EKG)]: the right operand is a [size_t], so the
    sum is converted to unsigned before the remainder is taken. *)
Definition next_index (st : producer) : Z :=
  to_size_t (index st + 1) mod sizeof_EKG.

(** The table the nested [if] picks. *)
Definition active_table (g : globals) : list Z :=
  if isAlive g then
    if isEKG g then EKG else ARY
  else deadPoints.

(** One timer interrupt.  A zero [delayMillis] makes the first statement
    divide by zero, which C++ leaves undefined: the model yields [None]
    there.  The handler returns [true] on both of its paths (the timer
    keeps running), so only the state afterwards is recorded. *)
Definition TimerHandler0 (g : globals) (st : producer) : option producer :=
  if delayMillis g =? 0 then None
  else
    let xbyte' := next_xbyte g st in
    if negb (xbyte' =? 0) then
      Some (mkProducer xbyte' (index st) (valueFifo st))
    else
      let index' := next_index st in
      Some (mkProducer xbyte' index'
              (snd (enqueue maxSize (valueFifo st)
                      (array_get (active_table g) index')))).

(** Successive interrupts, each seeing the globals of its moment. *)
Fixpoint run_ticks (st : producer) (gs : list globals) : option producer :=
  match gs with
  | [] => Some st
  | g :: gs' =>
      match TimerHandler0 g st with
      | Some st' => run_ticks st' gs'
      | None => None
      end
  end.

(** Each of the interrupts [gs], taken one after the other from [st],
    returns with the table index and the queue as they are in [st]:
    between any two of them, and after the last, both are unchanged. *)
Definition ticks_skip (st : producer) (gs : list globals) : Prop :=
  forall k : nat,
    exists s, run_ticks st (take k gs) = Some s
              /\ index s = index st /\ valueFifo s = valueFifo st.

(** ** The button tracker [debounceAndToggle] *)

Definition LOW : Z := 0.
Definition HIGH : Z := 1.

Definition debounceDelay : Z := 50.

(** The three variables the function takes by reference. *)
Record button : Type := mkButton {
  buttonState : bool;
  lastButtonState : bool;
  lastDebounceTime : Z
}.

Definition button_init : button := mkButton false false 0.

(** What one call observes: [digitalRead(pin)], and the clock at the two
    places where [millis()] is called. *)
Record poll : Type := mkPoll {
  reading : Z;
  millis_reset : Z;
  millis_check : Z
}.

(** Conversion of an [int] to [bool]. *)
Definition int_to_bool (n : Z) : bool := negb (n =? 0).

(** Subtraction of two [unsigned long]. *)
Definition ulong_sub (a b : Z) : Z := (a - b) mod 2 ^ 32.

(** One call; the last component is [*toggleVariable] afterwards. *)
Definition debounceAndToggle (p : poll) (b : button) (toggleVariable : bool)
  : button * bool :=
  let lastDebounceTime' :=
    if negb (reading p =? Z.b2z (lastButtonState b)) then millis_reset p
    else lastDebounceTime b in
  let '(buttonState', toggleVariable') :=
    if ulong_sub (millis_check p) lastDebounceTime' >? debounceDelay then
      if negb (reading p =? Z.b2z (buttonState b)) then
        let bs := int_to_bool (reading p) in
        (bs, if Z.b2z bs =? LOW then negb toggleVariable else toggleVariable)
      else (buttonState b, toggleVariable)
    else (buttonState b, toggleVariable) in
  (mkButton buttonState' (int_to_bool (reading p)) lastDebounceTime',
   toggleVariable').

(** The calls of successive [loop] iterations on one button. *)
Fixpoint run_polls (b : button) (flag : bool) (ps : list poll) : button * bool :=
  match ps with
  | [] => (b, flag)
  | p :: ps' =>
      let '(b', flag') := debounceAndToggle p b flag in
      run_polls b' flag' ps'
  end.

(** How many of the calls changed the accepted state. *)
Fixpoint acceptances (b : button) (flag : bool) (ps : list poll) : nat :=
  match ps with
  | [] => O
  | p :: ps' =>
      let '(b', flag') := debounceAndToggle p b flag in
      ((if eqb (buttonState b') (buttonState b) then 0 else 1)
       + acceptances b' flag' ps')%nat
  end.

(** How many of the calls inverted the flag. *)
Fixpoint toggles (b : button) (flag : bool) (ps : list poll) : nat :=
  match ps with
  | [] => O
  | p :: ps' =>
      let '(b', flag') := debounceAndToggle p b flag in
      ((if eqb flag' flag then 0 else 1) + toggles b' flag' ps')%nat
  end.

(** A call that reads the pin at [level] and the clock at [t], the same
    millisecond at both places. *)
Definition poll_at (level : bool) (t : Z) : poll := mkPoll (Z.b2z level) t t.

(** The time the tracker measures at a call, counted from [t0]. *)
Definition elapsed (t0 : Z) (p : poll) : Z := ulong_sub (millis_check p) t0.

(** ** The control-surface readings of [loop] *)

(** Modelled from the spec: Arduino's [map], which [loop] calls, belongs
    to the board support library and is not among the sources.  The
    spec has it map a reading linearly from the input range onto the
    target range; on integers that is the truncated quotient below. *)
Definition map (x in_min in_max out_min out_max : Z) : Z :=
  Z.quot ((x - in_min) * (out_max - out_min)) (in_max - in_min) + out_min.

(** Conversion of a [long] to [double], division of two [double]s and
    conversion of a [double] to [float], all rounding to nearest even. *)
Definition double_of_long (n : Z) : spec_float :=
  binary_normalize 53 1024 n 0 false.

Definition double_div (x y : spec_float) : spec_float := SFdiv 53 1024 x y.

Definition float_of_double (d : spec_float) : spec_float :=
  match d with
  | S754_finite s m e => binary_round 24 128 s m e
  | _ => d
  end.

(** The rational a finite float stands for. *)
Definition float_value (f : spec_float) : option Q :=
  match f with
  | S754_zero _ => Some 0%Q
  | S754_finite s m e =>
      Some ((if s then -1 else 1) * inject_Z (Z.pos m) * Qpower 2 e)%Q
  | _ => None
  end.

Record tunables : Type := mkTunables {
  amp : spec_float;
  bpm : Z;
  delayMillis_set : Z
}.

(** The first three statements of [loop], on the two [analogRead]
    results. *)
Definition loop_tunables (amp_stick bpm_stick : Z) : tunables :=
  mkTunables
    (float_of_double
       (double_div (double_of_long (map amp_stick 0 4095 10 100))
                   (double_of_long 100)))
    (map bpm_stick 0 4095 40 220)
    (map bpm_stick 0 4095 9 48).


(** The amplitude computed from a percentage [k]. *)
Definition amp_of_percent (k : Z) : spec_float :=
  float_of_double (double_div (double_of_long k) (double_of_long 100)).

(** [amp_of_percent k] is a finite float in [1/10, 1] within relative
    distance 2^-24 of [k / 100]. *)
Definition amp_check (k : Z) : bool :=
  match float_value (amp_of_percent k) with
  | Some v =>
      Qle_bool (1 # 10) v && Qle_bool v 1
      && Qle_bool (Qabs (v * 100 - inject_Z k) * inject_Z (2 ^ 24)) (inject_Z k)
  | None => false
  end.

(** The [float] nearest to one tenth, the value the literal [0.10f] has. *)
Definition float_tenth : spec_float :=
  SFdiv 24 128 (binary_normalize 24 128 1 0 false) (binary_normalize 24 128 10 0 false).

(** The [float] 1. *)
Definition float_one : spec_float := SFone 24 128.

(** ** The delivery step of [loop] and the program as a whole *)

(** Conversion of an [int] to [float]. *)
Definition float_of_int (n : Z) : spec_float := binary_normalize 24 128 n 0 false.

(** Product of two [float]s. *)
Definition float_mul (x y : spec_float) : spec_float := SFmul 24 128 x y.

(** Conversion of a [float] to [uint8_t]: the fraction is discarded.  C++
    leaves the conversion undefined when what remains is not a value of
    the target type; the model yields [None] there. *)
Definition float_to_uint8 (f : spec_float) : option Z :=
  match f with
  | S754_zero _ => Some 0
  | S754_finite s m e =>
      let t := Z.shiftl (Z.pos m) e in
      let v := if s then - t else t in
      if (0 <=? v) && (v <=? 255) then Some v else None
  | _ => None
  end.

(** The argument [val * amp] as [notifyClients(uint8_t)] receives it: the
    sample is promoted and converted to [float], multiplied, and the
    product converted to [uint8_t]. *)
Definition scaled_sample (val : Z) (a : spec_float) : option Z :=
  float_to_uint8 (float_mul (float_of_int val) a).

(** All globals of the program: the handler's statics and queue, the
    globals it reads, the two tunables it does not read, and the variables
    of the two buttons. *)
Record machine : Type := mkMachine {
  m_producer : producer;
  m_globals : globals;
  m_amp : spec_float;
  m_bpm : Z;
  m_ary : button;
  m_kll : button
}.

(** The state after static initialisation: [delayMillis = 9], both flags
    [true], [amp] and [bpm] zeroed. *)
Definition machine_init : machine :=
  mkMachine producer_init (mkGlobals 9 true true) (S754_zero false) 0
            button_init button_init.

(** What can happen next: the timer interrupt, or one of the four parts
    of [loop] (the three assignments from the sticks, the delivery, the
    call for either button).  Runs of these events are the runs of the
    program in which every interrupt is taken between two parts.  In the
    source the interrupt can also fall inside a part, and inside
    [dequeue] itself, between the read and the write of [itemCount]: the
    queue is not protected against that, C++ does not define the outcome
    of such a race, and those runs are not among the runs modelled
    here.  Everything stated about runs of events is stated under this
    restriction. *)
Inductive event : Type :=
| Interrupt
| ReadSticks (amp_stick bpm_stick bpm_stick_again : Z)
| Deliver
| PollARY (p : poll)
| PollKLL (p : poll).

(** The three assignments at the head of [loop]; the BPM pin is read
    once for [bpm] and once more for [delayMillis]. *)
Definition read_sticks (amp_stick bpm_stick bpm_stick_again : Z) (m : machine)
  : machine :=
  mkMachine (m_producer m)
            (mkGlobals (delayMillis_set (loop_tunables amp_stick bpm_stick_again))
                       (isAlive (m_globals m)) (isEKG (m_globals m)))
            (amp (loop_tunables amp_stick bpm_stick))
            (bpm (loop_tunables amp_stick bpm_stick))
            (m_ary m) (m_kll m).

(** [if (!valueFifo.isEmpty()) { uint8_t val; if (valueFifo.dequeue(val))
    notifyClients(val * amp); }]: the state afterwards and the arguments
    of the calls of [notifyClients] made. *)
Definition deliver (m : machine) : option (machine * list Z) :=
  let q := valueFifo (m_producer m) in
  if negb (isEmpty q) then
    let '(ok, val, q') := dequeue maxSize q 0 in
    let m' := mkMachine (mkProducer (xbyte (m_producer m)) (index (m_producer m)) q')
                        (m_globals m) (m_amp m) (m_bpm m) (m_ary m) (m_kll m) in
    if ok then
      match scaled_sample val (m_amp m) with
      | Some v => Some (m', [v])
      | None => None
      end
    else Some (m', [])
  else Some (m, []).

(** [debounceAndToggle(ARY_SWITCH_PIN, buttonState, lastButtonState,
    lastDebounceTime, &isEKG)]. *)
Definition poll_ary (p : poll) (m : machine) : machine :=
  let '(b', flag') := debounceAndToggle p (m_ary m) (isEKG (m_globals m)) in
  mkMachine (m_producer m)
            (mkGlobals (delayMillis (m_globals m)) (isAlive (m_globals m)) flag')
            (m_amp m) (m_bpm m) b' (m_kll m).

(** [debounceAndToggle(KLL_SWITCH_PIN, buttonStateKLL, lastButtonStateKLL,
    lastDebounceTimeKLL, &isAlive)]. *)
Definition poll_kll (p : poll) (m : machine) : machine :=
  let '(b', flag') := debounceAndToggle p (m_kll m) (isAlive (m_globals m)) in
  mkMachine (m_producer m)
            (mkGlobals (delayMillis (m_globals m)) flag' (isEKG (m_globals m)))
            (m_amp m) (m_bpm m) (m_ary m) b'.

Definition step (m : machine) (e : event) : option (machine * list Z) :=
  match e with
  | Interrupt =>
      match TimerHandler0 (m_globals m) (m_producer m) with
      | Some st' =>
          Some (mkMachine st' (m_globals m) (m_amp m) (m_bpm m) (m_ary m) (m_kll m),
                [])
      | None => None
      end
  | ReadSticks a r r' => Some (read_sticks a r r' m, [])
  | Deliver => deliver m
  | PollARY p => Some (poll_ary p m, [])
  | PollKLL p => Some (poll_kll p m, [])
  end.

(** A run of events: the state it ends in and every argument passed to
    [notifyClients], in order. *)
Fixpoint run_events (m : machine) (es : list event) : option (machine * list Z) :=
  match es with
  | [] => Some (m, [])
  | e :: es' =>
      match step m e with
      | Some (m1, out1) =>
          match run_events m1 es' with
          | Some (m2, out2) => Some (m2, out1 ++ out2)
          | None => None
          end
      | None => None
      end
  end.

(** What one iteration of [loop] reads. *)
Record loop_inputs : Type := mkLoopInputs {
  in_amp_stick : Z;
  in_bpm_stick : Z;
  in_bpm_stick_again : Z;
  in_ary : poll;
  in_kll : poll
}.

(** One iteration of [loop] with no interrupt inside it. *)
Definition loop (i : loop_inputs) (m : machine) : option (machine * list Z) :=
  run_events m
    [ReadSticks (in_amp_stick i) (in_bpm_stick i) (in_bpm_stick_again i);
     Deliver; PollARY (in_ary i); PollKLL (in_kll i)].

(** The stick readings of an event are those of a 12-bit converter. *)
Definition sticks_in_range (e : event) : Prop :=
  match e with
  | ReadSticks a r r' => 0 <= a <= 4095 /\ 0 <= r <= 4095 /\ 0 <= r' <= 4095
  | _ => True
  end.

(** A value found in one of the three tables. *)
Definition table_sample (v : Z) : Prop := v ∈ EKG ++ ARY ++ deadPoints.

(** The delivered value for sample [val] at percentage [k] is a
    [uint8_t], is the integer part of [val * k / 100] or one less, and is
    [val] itself at 100 per cent. *)
Definition scale_check (val k : Z) : bool :=
  match scaled_sample val (amp_of_percent k) with
  | Some out =>
      (0 <=? out) && (val * k / 100 - 1 <=? out) && (out <=? val * k / 100)
      && implb (k =? 100) (out =? val)
  | None => false
  end.

(** What every state of a run of the program satisfies. *)
Definition machine_ok (m : machine) : Prop :=
  9 <= delayMillis (m_globals m) <= 48
  /\ 0 <= xbyte (m_producer m) < 48
  /\ 0 <= index (m_producer m) < 32
  /\ fifo_inv maxSize (valueFifo (m_producer m))
  /\ Forall table_sample (contents maxSize (valueFifo (m_producer m)))
  /\ (m_amp m = S754_zero false
      \/ exists k, 10 <= k <= 100 /\ m_amp m = amp_of_percent k).

(** Any event but a call for the KLL button. *)
Definition not_kll (e : event) : Prop :=
  match e with
  | PollKLL _ => False
  | _ => True
  end.

(** * Theorems *)

(** ** The ring buffer *)

Section CapacityFacts.

Variable C : Z.
Hypothesis C_pos : 0 < C.

Lemma new_inv : fifo_inv C (SimpleFIFO_new C).
Proof.
  split; simpl.
  - by rewrite length_replicate.
  - lia.
  - lia.
  - by rewrite Z.mod_0_l by lia.
Qed.

Lemma new_contents : contents C (SimpleFIFO_new C) = [].
Proof. reflexivity. Qed.

Lemma contents_length q :
  0 <= itemCount q -> Z.of_nat (length (contents C q)) = itemCount q.
Proof.
  intros Hc. unfold contents. rewrite length_fmap, length_seq. lia.
Qed.

(** Two of the first [C] offsets from the front never share a slot. *)
Lemma slot_inj q (j k : nat) :
  Z.of_nat j < C -> Z.of_nat k < C -> slot C q j = slot C q k -> j = k.
Proof.
  unfold slot. intros Hj Hk Heq.
  assert (Hd : (Z.of_nat j - Z.of_nat k) mod C = 0).
  { replace (Z.of_nat j - Z.of_nat k)
      with ((frontIndex q + Z.of_nat j) - (frontIndex q + Z.of_nat k)) by lia.
    rewrite Zminus_mod, Heq, Z.sub_diag. apply Z.mod_0_l. lia. }
  apply Z.mod_divide in Hd; [|lia].
  destruct Hd as [m Hm].
  assert (m = 0) by nia. lia.
Qed.

Lemma slot_range q k : 0 <= slot C q k < C.
Proof. unfold slot. apply Z.mod_pos_bound. lia. Qed.

Lemma rear_is_slot q :
  fifo_inv C q -> rearIndex q = slot C q (Z.to_nat (itemCount q)).
Proof.
  intros [_ _ Hc Hr]. unfold slot. rewrite Z2Nat.id by lia. exact Hr.
Qed.

(** An accepted sample goes to the back of the queue. *)
Lemma enqueue_accepts q d :
  fifo_inv C q -> itemCount q < C ->
  exists q', enqueue C q d = (true, q') /\ fifo_inv C q'
             /\ contents C q' = contents C q ++ [d].
Proof.
  intros Hinv Hlt. pose proof (rear_is_slot q Hinv) as Hrear.
  destruct Hinv as [Hlen Hf Hc Hr].
  unfold enqueue. apply Z.ltb_lt in Hlt as Hb. rewrite Hb.
  eexists. split; [reflexivity|]. split.
  - split; simpl.
    + unfold array_set. by rewrite length_insert.
    + exact Hf.
    + lia.
    + rewrite Z.rem_mod_nonneg.
      * rewrite Hr, Z.add_mod_idemp_l by lia. f_equal. lia.
      * pose proof (Z.mod_pos_bound (frontIndex q + itemCount q) C). lia.
      * lia.
  - unfold contents. simpl.
    replace (Z.to_nat (itemCount q + 1)) with (S (Z.to_nat (itemCount q))) by lia.
    rewrite seq_S, fmap_app. simpl. f_equal.
    + apply list_fmap_ext. intros i k Hk.
      apply lookup_seq in Hk as [-> Hk]. simpl.
      unfold array_get, array_set, slot. simpl.
      apply list_lookup_total_insert_ne.
      intros Heq. apply Z2Nat.inj in Heq.
      * rewrite Hrear in Heq.
        apply slot_inj in Heq; lia.
      * rewrite Hrear. apply slot_range.
      * apply (slot_range q).
    + unfold array_get, array_set, slot. simpl. f_equal.
      fold (slot C q (Z.to_nat (itemCount q))). rewrite <- Hrear.
      apply list_lookup_total_insert_eq.
      rewrite Hlen, Hrear.
      pose proof (slot_range q (Z.to_nat (itemCount q))). lia.
Qed.

(** A full queue takes nothing. *)
Lemma enqueue_rejects q d :
  C <= itemCount q -> enqueue C q d = (false, q).
Proof.
  intros Hge. unfold enqueue.
  destruct (Z.ltb_spec (itemCount q) C); [lia | reflexivity].
Qed.

(** A delivered sample comes from the front of the queue. *)
Lemma dequeue_delivers q v0 :
  fifo_inv C q -> 0 < itemCount q ->
  exists v q', dequeue C q v0 = (true, v, q') /\ fifo_inv C q'
               /\ contents C q = v :: contents C q'.
Proof.
  intros [Hlen Hf Hc Hr] Hpos.
  unfold dequeue. assert (Hb : (itemCount q >? 0) = true) by lia. rewrite Hb.
  assert (Hfront : Z.rem (frontIndex q + 1) C = (frontIndex q + 1) mod C)
    by (apply Z.rem_mod_nonneg; lia).
  do 2 eexists. split; [reflexivity|]. split.
  - split; simpl.
    + exact Hlen.
    + rewrite Hfront. apply Z.mod_pos_bound. lia.
    + lia.
    + rewrite Hfront, Z.add_mod_idemp_l, Hr by lia. f_equal. lia.
  - unfold contents. simpl.
    replace (Z.to_nat (itemCount q)) with (S (Z.to_nat (itemCount q - 1))) by lia.
    simpl. f_equal.
    + unfold slot. rewrite Z.add_0_r, Z.mod_small by lia. reflexivity.
    + rewrite <- fmap_S_seq, <- list_fmap_compose.
      apply list_fmap_ext. intros i k _. simpl. f_equal.
      unfold slot. simpl. rewrite Hfront, Z.add_mod_idemp_l by lia.
      f_equal. lia.
Qed.

(** An empty queue hands out nothing. *)
Lemma dequeue_absent q v0 :
  itemCount q <= 0 -> dequeue C q v0 = (false, v0, q).
Proof.
  intros Hle. unfold dequeue.
  destruct (Z.gtb_spec (itemCount q) 0); [lia | reflexivity].
Qed.

(** Every call keeps the invariant, and the samples taken so far are the
    samples handed out followed by those still queued. *)
Lemma do_call_inv q c :
  fifo_inv C q ->
  let '(q', o) := do_call C q c in
  fifo_inv C q'
  /\ contents C q ++ accepted [o] = delivered [o] ++ contents C q'.
Proof.
  intros Hinv. destruct c as [d|]; simpl.
  - destruct (Z.lt_ge_cases (itemCount q) C) as [Hlt|Hge].
    + destruct (enqueue_accepts q d Hinv Hlt) as (q' & -> & Hq' & Hcont).
      split; [exact Hq'|]. simpl. by rewrite Hcont.
    + rewrite (enqueue_rejects q d Hge). split; [exact Hinv|].
      simpl. by rewrite app_nil_r.
  - destruct (Z.lt_ge_cases 0 (itemCount q)) as [Hpos|Hle].
    + destruct (dequeue_delivers q 0 Hinv Hpos) as (v & q' & -> & Hq' & Hcont).
      split; [exact Hq'|]. simpl. by rewrite Hcont, app_nil_r.
    + rewrite (dequeue_absent q 0 Hle). split; [exact Hinv|].
      simpl. by rewrite app_nil_r.
Qed.

Lemma accepted_cons o os : accepted (o :: os) = accepted [o] ++ accepted os.
Proof. destruct o; reflexivity. Qed.

Lemma delivered_cons o os : delivered (o :: os) = delivered [o] ++ delivered os.
Proof. destruct o; reflexivity. Qed.

Lemma run_inv cs : forall q,
  fifo_inv C q ->
  fifo_inv C (fst (run C q cs))
  /\ contents C q ++ accepted (snd (run C q cs))
     = delivered (snd (run C q cs)) ++ contents C (fst (run C q cs)).
Proof.
  induction cs as [|c cs IH]; intros q Hinv; simpl.
  - split; [exact Hinv|]. by rewrite app_nil_r.
  - pose proof (do_call_inv q c Hinv) as Hstep.
    destruct (do_call C q c) as [q1 o].
    destruct Hstep as [Hq1 Hone].
    specialize (IH q1 Hq1).
    destruct (run C q1 cs) as [q2 os]. cbn [fst snd] in *.
    destruct IH as [Hq2 Hrest]. split; [exact Hq2|].
    rewrite (accepted_cons o os), (delivered_cons o os).
    rewrite app_assoc, Hone, <- app_assoc, Hrest, app_assoc. reflexivity.
Qed.

End CapacityFacts.

(** Under the invariant every array access of the queue is inside the
    buffer, and no increment leaves the range of a 32-bit [int]. *)
Lemma fifo_accesses_in_range (C : Z) (q : SimpleFIFO) :
  0 < C < 2 ^ 31 -> fifo_inv C q ->
  (Z.to_nat (frontIndex q) < length (buffer q))%nat
  /\ (Z.to_nat (rearIndex q) < length (buffer q))%nat
  /\ 0 <= rearIndex q /\ rearIndex q + 1 < 2 ^ 31
  /\ frontIndex q + 1 < 2 ^ 31
  /\ itemCount q + 1 <= 2 ^ 31.
Proof.
  intros HC [Hlen Hf Hc Hr].
  pose proof (Z.mod_pos_bound (frontIndex q + itemCount q) C) as Hm.
  rewrite Hlen, Hr. repeat split; lia.
Qed.

(** The scenario of the design notes: capacity 4, five samples offered,
    then five reads. *)
Example capacity_four_scenario :
  snd (run 4 (SimpleFIFO_new 4)
         [Enqueue 1; Enqueue 2; Enqueue 3; Enqueue 4; Enqueue 5;
          Dequeue; Dequeue; Dequeue; Dequeue; Dequeue])
  = [Accepted 1; Accepted 2; Accepted 3; Accepted 4; Dropped 5;
     Delivered 1; Delivered 2; Delivered 3; Delivered 4; Absent].
Proof. reflexivity. Qed.

(** C1.  Whatever calls are made on a queue of capacity [C] starting from
    the constructed state, after any number of them the item count is
    between 0 and [C] and equals the number of queued samples, and the
    samples accepted so far are exactly the samples delivered so far, in
    the same order, followed by those still queued; so the delivered
    samples are an initial segment of the accepted ones. *)
Theorem fifo_count_bounded_and_order (C : Z) (cs : list call) (n : nat) :
  0 < C ->
  let q := fst (run C (SimpleFIFO_new C) (take n cs)) in
  let os := snd (run C (SimpleFIFO_new C) (take n cs)) in
  0 <= itemCount q <= C
  /\ itemCount q = Z.of_nat (length (contents C q))
  /\ accepted os = delivered os ++ contents C q
  /\ delivered os `prefix_of` accepted os.
Proof.
  intros HC q os.
  destruct (run_inv C HC (take n cs) (SimpleFIFO_new C) (new_inv C HC))
    as [Hinv Hord].
  fold q os in Hinv, Hord. rewrite new_contents in Hord. simpl in Hord.
  pose proof (inv_count C q Hinv) as Hc.
  split; [exact Hc|]. split.
  - symmetry. apply contents_length. lia.
  - split; [exact Hord|]. rewrite Hord. by eexists.
Qed.

Lemma fifo_count_bounded_and_order_witness :
  0 < maxSize
  /\ let cs := [Enqueue 65; Enqueue 70; Dequeue; Enqueue 76; Dequeue; Dequeue; Dequeue] in
     let q := fst (run maxSize (SimpleFIFO_new maxSize) (take 5 cs)) in
     let os := snd (run maxSize (SimpleFIFO_new maxSize) (take 5 cs)) in
     0 <= itemCount q <= maxSize
     /\ itemCount q = Z.of_nat (length (contents maxSize q))
     /\ accepted os = delivered os ++ contents maxSize q
     /\ delivered os `prefix_of` accepted os.
Proof.
  split; [reflexivity|].
  apply (fifo_count_bounded_and_order maxSize
           [Enqueue 65; Enqueue 70; Dequeue; Enqueue 76; Dequeue; Dequeue; Dequeue] 5).
  reflexivity.
Defined.

(** C2.  When the item count equals the capacity, [enqueue] returns
    [false] and the queue it leaves is the queue it found: buffer, front
    index, rear index and count. *)
Theorem enqueue_full_unchanged (C : Z) (q : SimpleFIFO) (data : Z) :
  itemCount q = C -> enqueue C q data = (false, q).
Proof. intros Hfull. apply enqueue_rejects. lia. Qed.

Lemma enqueue_full_unchanged_witness :
  itemCount valueFifo_full = maxSize
  /\ enqueue maxSize valueFifo_full 230 = (false, valueFifo_full).
Proof.
  assert (H : itemCount valueFifo_full = maxSize) by (vm_compute; reflexivity).
  split; [exact H|].
  exact (enqueue_full_unchanged maxSize valueFifo_full 230 H).
Defined.

(** C3.  [isEmpty] answers [true] exactly when the item count is zero, and
    in that case [dequeue] returns [false], leaves the referenced variable
    as it was and leaves the queue as it found it. *)
Theorem dequeue_empty_unchanged (C : Z) (q : SimpleFIFO) (data : Z) :
  (isEmpty q = true <-> itemCount q = 0)
  /\ (itemCount q = 0 -> dequeue C q data = (false, data, q)).
Proof.
  split.
  - unfold isEmpty. apply Z.eqb_eq.
  - intros Hzero. apply dequeue_absent. lia.
Qed.

Lemma dequeue_empty_unchanged_witness :
  itemCount valueFifo_init = 0
  /\ isEmpty valueFifo_init = true
  /\ dequeue maxSize valueFifo_init 7 = (false, 7, valueFifo_init).
Proof.
  split; [reflexivity|]. split.
  - apply (proj1 (dequeue_empty_unchanged maxSize valueFifo_init 7)). reflexivity.
  - apply (proj2 (dequeue_empty_unchanged maxSize valueFifo_init 7)). reflexivity.
Defined.

(** ** The sample producer *)

Lemma sizeof_EKG_eq : sizeof_EKG = 32.
Proof. reflexivity. Qed.

(** The unsigned remainder is the index advanced by one modulo the table
    length, whatever the index was. *)
Lemma next_index_eq st : next_index st = (index st + 1) mod 32.
Proof.
  unfold next_index, to_size_t. rewrite sizeof_EKG_eq.
  change (2 ^ 32) with (32 * 134217728).
  rewrite Z.rem_mul_r by lia.
  rewrite Z.mul_comm, Z.mod_add by lia.
  apply Z.mod_mod. lia.
Qed.

Lemma next_index_range st : 0 <= next_index st < 32.
Proof. rewrite next_index_eq. apply Z.mod_pos_bound. lia. Qed.

(** An index below 32 is inside a table of 32 entries, and the read
    yields the entry stored there. *)
Lemma table_read (t : list Z) (i : Z) :
  length t = 32%nat -> 0 <= i < 32 -> t !! Z.to_nat i = Some (array_get t i).
Proof.
  intros Hlen Hi. unfold array_get.
  apply list_lookup_lookup_total_lt. lia.
Qed.

(** A tick whose counter comes back to zero advances the index and offers
    the entry of the active table to the queue. *)
Lemma tick_enqueues g st :
  delayMillis g <> 0 -> next_xbyte g st = 0 ->
  TimerHandler0 g st =
    Some (mkProducer 0 (next_index st)
            (snd (enqueue maxSize (valueFifo st)
                    (array_get (active_table g) (next_index st))))).
Proof.
  intros Hd Hx. unfold TimerHandler0.
  destruct (Z.eqb_spec (delayMillis g) 0) as [|_]; [contradiction|].
  rewrite Hx. reflexivity.
Qed.

(** A tick whose counter is not zero touches neither the index nor the
    queue. *)
Lemma tick_skips g st :
  delayMillis g <> 0 -> next_xbyte g st <> 0 ->
  TimerHandler0 g st =
    Some (mkProducer (next_xbyte g st) (index st) (valueFifo st)).
Proof.
  intros Hd Hx. unfold TimerHandler0.
  destruct (Z.eqb_spec (delayMillis g) 0) as [|_]; [contradiction|].
  destruct (Z.eqb_spec (next_xbyte g st) 0) as [|_]; [contradiction|].
  reflexivity.
Qed.

Lemma rem_mod_same a N : 0 < N -> Z.rem a N mod N = a mod N.
Proof.
  intros HN.
  rewrite (Z.quot_rem' a N) at 2.
  rewrite Z.add_comm, Z.mul_comm, Z.mod_add by lia. reflexivity.
Qed.

Lemma rem_zero_iff a N : 0 < N -> Z.rem a N = 0 <-> a mod N = 0.
Proof.
  intros HN. rewrite Z.rem_divide, Z.mod_divide by lia. reflexivity.
Qed.

Lemma run_ticks_app (gs1 gs2 : list globals) : forall st,
  run_ticks st (gs1 ++ gs2)
  = match run_ticks st gs1 with
    | Some st1 => run_ticks st1 gs2
    | None => None
    end.
Proof.
  induction gs1 as [|g gs1 IH]; intros st; simpl; [reflexivity|].
  destruct (TimerHandler0 g st) as [st1|]; [apply IH | reflexivity].
Qed.

(** With the divisor at [N], a tick either finds the counter one short
    of [N], resets it and offers a sample, or counts one up and does
    nothing else. *)
Lemma tick_cases (g : globals) (st : producer) (N : Z) :
  0 < N -> delayMillis g = N ->
  let c := xbyte st mod N in
  (c + 1 = N
   /\ TimerHandler0 g st =
      Some (mkProducer 0 (next_index st)
              (snd (enqueue maxSize (valueFifo st)
                      (array_get (active_table g) (next_index st))))))
  \/ (c + 1 < N
      /\ exists x', TimerHandler0 g st
                    = Some (mkProducer x' (index st) (valueFifo st))
                    /\ x' mod N = c + 1).
Proof.
  intros HN Hg c.
  pose proof (Z.mod_pos_bound (xbyte st) N HN) as Hc. fold c in Hc.
  assert (Hd : delayMillis g <> 0) by lia.
  assert (Hnext : next_xbyte g st mod N = (c + 1) mod N).
  { unfold next_xbyte. rewrite Hg, rem_mod_same by lia.
    subst c. by rewrite Z.add_mod_idemp_l by lia. }
  destruct (Z.eq_dec (next_xbyte g st) 0) as [Hz|Hnz].
  - left. split; [|by apply tick_enqueues].
    rewrite Hz, Z.mod_0_l in Hnext by lia. symmetry in Hnext.
    apply Z.mod_divide in Hnext as [m Hm]; [|lia].
    assert (m = 1) by nia. lia.
  - right.
    assert (Hlt : c + 1 < N).
    { destruct (Z.eq_dec (c + 1) N) as [He|]; [|lia].
      exfalso. apply Hnz. unfold next_xbyte. rewrite Hg.
      apply rem_zero_iff; [lia|].
      unfold next_xbyte in Hnext. rewrite Hg, rem_mod_same in Hnext by lia.
      rewrite Hnext, He. apply Z.mod_same. lia. }
    split; [exact Hlt|]. exists (next_xbyte g st).
    split; [by apply tick_skips|].
    rewrite Hnext. apply Z.mod_small. lia.
Qed.

(** Ticks that cannot bring the counter round to zero all skip. *)
Lemma quiet_run (N : Z) : 0 < N -> forall (gs : list globals) (st : producer),
  Forall (fun g => delayMillis g = N) gs ->
  xbyte st mod N + Z.of_nat (length gs) < N ->
  exists s, run_ticks st gs = Some s
    /\ index s = index st /\ valueFifo s = valueFifo st
    /\ xbyte s mod N = xbyte st mod N + Z.of_nat (length gs).
Proof.
  intros HN. induction gs as [|g gs IH]; intros st Hall Hlen.
  - exists st. cbn. split; [reflexivity|]. split; [reflexivity|].
    split; [reflexivity | lia].
  - apply Forall_cons in Hall as [Hg Hall]. rewrite length_cons in Hlen.
    pose proof (Z.mod_pos_bound (xbyte st) N HN) as Hc.
    destruct (tick_cases g st N HN Hg) as [[Hc1 _]|(Hc1 & x' & Htick & Hx')]; [lia|].
    destruct (IH (mkProducer x' (index st) (valueFifo st)) Hall
                ltac:(cbn [xbyte]; lia)) as (s & Hrun & Hi & Hq & Hx).
    cbn [xbyte index valueFifo] in Hi, Hq, Hx.
    exists s. cbn [run_ticks]. rewrite Htick.
    split; [exact Hrun|]. split; [exact Hi|]. split; [exact Hq|].
    rewrite Hx, Hx', length_cons. lia.
Qed.

Lemma quiet_skips (N : Z) (gs : list globals) (st : producer) :
  0 < N -> Forall (fun g => delayMillis g = N) gs ->
  xbyte st mod N + Z.of_nat (length gs) < N ->
  ticks_skip st gs.
Proof.
  intros HN Hall Hlen k.
  assert (Hk : (length (take k gs) <= length gs)%nat) by (rewrite length_take; lia).
  destruct (quiet_run N HN (take k gs) st ltac:(by apply Forall_take) ltac:(lia))
    as (s & Hrun & Hi & Hq & _).
  by exists s.
Qed.

(** With the divisor at [N], any [N] consecutive ticks fall into ticks
    that skip, one tick that advances the index and calls [enqueue], and
    ticks that skip. *)
Lemma window_split (N : Z) (gs : list globals) (st : producer) :
  0 < N -> Forall (fun g => delayMillis g = N) gs -> Z.of_nat (length gs) = N ->
  exists pre g post st1 st',
    gs = pre ++ g :: post
    /\ run_ticks st pre = Some st1 /\ ticks_skip st pre
    /\ TimerHandler0 g st1
       = Some (mkProducer 0 (next_index st)
                 (snd (enqueue maxSize (valueFifo st)
                         (array_get (active_table g) (next_index st)))))
    /\ run_ticks (mkProducer 0 (next_index st)
                    (snd (enqueue maxSize (valueFifo st)
                            (array_get (active_table g) (next_index st)))))
                 post = Some st'
    /\ ticks_skip (mkProducer 0 (next_index st)
                     (snd (enqueue maxSize (valueFifo st)
                             (array_get (active_table g) (next_index st)))))
                  post
    /\ index st' = next_index st
    /\ valueFifo st'
       = snd (enqueue maxSize (valueFifo st)
                (array_get (active_table g) (next_index st)))
    /\ run_ticks st gs = Some st'.
Proof.
  intros HN Hall Hlen.
  pose proof (Z.mod_pos_bound (xbyte st) N HN) as Hc.
  set (c := xbyte st mod N) in *.
  set (p := Z.to_nat (N - 1 - c)).
  destruct (lookup_lt_is_Some_2 gs p ltac:(lia)) as [g Hg].
  pose proof (take_drop_middle gs p g Hg) as Hsplit.
  pose proof (Forall_lookup_1 _ gs p g Hall Hg) as HgN. cbv beta in HgN.
  assert (Hlp : length (take p gs) = p) by (rewrite length_take; lia).
  assert (Hld : length (drop (S p) gs) = Z.to_nat c) by (rewrite length_drop; lia).
  destruct (quiet_run N HN (take p gs) st ltac:(by apply Forall_take)
              ltac:(fold c; lia)) as (st1 & Hrun1 & Hi1 & Hq1 & Hx1).
  fold c in Hx1. rewrite Hlp in Hx1.
  destruct (tick_cases g st1 N HN HgN) as [[_ Htick]|(Hlt & _)]; [|lia].
  assert (Hni : next_index st1 = next_index st)
    by (unfold next_index; by rewrite Hi1).
  rewrite Hni, Hq1 in Htick.
  set (st2 := mkProducer 0 (next_index st)
                (snd (enqueue maxSize (valueFifo st)
                        (array_get (active_table g) (next_index st))))) in *.
  assert (Hx2 : xbyte st2 mod N + Z.of_nat (length (drop (S p) gs)) < N).
  { cbn [xbyte st2]. rewrite Z.mod_0_l by lia. lia. }
  destruct (quiet_run N HN (drop (S p) gs) st2 ltac:(by apply Forall_drop) Hx2)
    as (st' & Hrun2 & Hi2 & Hq2 & _).
  exists (take p gs), g, (drop (S p) gs), st1, st'.
  split; [by rewrite Hsplit|]. split; [exact Hrun1|].
  split; [apply (quiet_skips N); [exact HN | by apply Forall_take | fold c; lia]|].
  split; [exact Htick|]. split; [exact Hrun2|].
  split; [apply (quiet_skips N); [exact HN | by apply Forall_drop | exact Hx2]|].
  split; [exact Hi2|]. split; [exact Hq2|].
  rewrite <- Hsplit, run_ticks_app, Hrun1. cbn [run_ticks]. by rewrite Htick.
Qed.

(** The handler fails only on a zero divisor. *)
Lemma run_ticks_total gs : forall st,
  Forall (fun g => delayMillis g <> 0) gs -> is_Some (run_ticks st gs).
Proof.
  induction gs as [|g gs IH]; intros st Hall; simpl.
  - by eexists.
  - apply Forall_cons in Hall as [Hg Hall].
    destruct (Z.eq_dec (next_xbyte g st) 0) as [Hz|Hnz].
    + rewrite (tick_enqueues g st Hg Hz). by apply IH.
    + rewrite (tick_skips g st Hg Hnz). by apply IH.
Qed.

(** The index of every state the handler leaves is below 32. *)
Lemma tick_index_range g st st' :
  0 <= index st < 32 -> TimerHandler0 g st = Some st' -> 0 <= index st' < 32.
Proof.
  intros Hi. unfold TimerHandler0.
  destruct (delayMillis g =? 0); [discriminate|].
  destruct (negb (next_xbyte g st =? 0)); intros [= <-]; simpl.
  - exact Hi.
  - apply next_index_range.
Qed.

Lemma run_ticks_index_range gs : forall st st',
  0 <= index st < 32 -> run_ticks st gs = Some st' -> 0 <= index st' < 32.
Proof.
  induction gs as [|g gs IH]; intros st st' Hi; simpl.
  - by intros [= <-].
  - destruct (TimerHandler0 g st) as [st1|] eqn:Htick; [|discriminate].
    apply IH. by eapply tick_index_range.
Qed.

(** C4.  On a tick that goes past the tick-counter test the handler moves
    the index to [(index + 1) mod 32] and offers the queue the entry at
    that index of the flatline table when [isAlive] is false (whatever
    [isEKG] is), of the ARY table when [isAlive] is true and [isEKG] is
    false, and of the EKG table when both are true; the entry read is
    inside the table, and a queue with room ends with it as its newest
    sample. *)
Theorem producer_selects_table (g : globals) (st : producer) :
  delayMillis g <> 0 -> next_xbyte g st = 0 ->
  exists st' sample,
    TimerHandler0 g st = Some st'
    /\ index st' = (index st + 1) mod 32
    /\ valueFifo st' = snd (enqueue maxSize (valueFifo st) sample)
    /\ (isAlive g = false -> deadPoints !! Z.to_nat (index st') = Some sample)
    /\ (isAlive g = true -> isEKG g = false ->
        ARY !! Z.to_nat (index st') = Some sample)
    /\ (isAlive g = true -> isEKG g = true ->
        EKG !! Z.to_nat (index st') = Some sample)
    /\ (fifo_inv maxSize (valueFifo st) -> itemCount (valueFifo st) < maxSize ->
        contents maxSize (valueFifo st')
        = contents maxSize (valueFifo st) ++ [sample]).
Proof.
  intros Hd Hx.
  exists (mkProducer 0 (next_index st)
            (snd (enqueue maxSize (valueFifo st)
                    (array_get (active_table g) (next_index st))))).
  exists (array_get (active_table g) (next_index st)).
  pose proof (next_index_range st) as Hr.
  split; [by apply tick_enqueues|]. simpl.
  split; [apply next_index_eq|]. split; [reflexivity|].
  unfold active_table.
  split; [|split; [|split]].
  - intros ->. by apply table_read.
  - intros -> ->. by apply table_read.
  - intros -> ->. by apply table_read.
  - intros Hinv Hroom.
    destruct (enqueue_accepts maxSize ltac:(reflexivity) (valueFifo st)
                (array_get (if isAlive g then if isEKG g then EKG else ARY else deadPoints)
                   (next_index st)) Hinv Hroom)
      as (q' & -> & _ & Hcont).
    exact Hcont.
Qed.

Lemma producer_selects_table_witness :
  delayMillis (mkGlobals 9 true false) <> 0
  /\ next_xbyte (mkGlobals 9 true false) (mkProducer 8 14 valueFifo_init) = 0
  /\ exists st' sample,
       TimerHandler0 (mkGlobals 9 true false) (mkProducer 8 14 valueFifo_init)
       = Some st'
       /\ index st' = (14 + 1) mod 32
       /\ valueFifo st' = snd (enqueue maxSize valueFifo_init sample)
       /\ (true = false -> deadPoints !! Z.to_nat (index st') = Some sample)
       /\ (true = true -> false = false ->
           ARY !! Z.to_nat (index st') = Some sample)
       /\ (true = true -> false = true ->
           EKG !! Z.to_nat (index st') = Some sample)
       /\ (fifo_inv maxSize valueFifo_init -> itemCount valueFifo_init < maxSize ->
           contents maxSize (valueFifo st')
           = contents maxSize valueFifo_init ++ [sample]).
Proof.
  split; [discriminate|]. split; [reflexivity|].
  apply (producer_selects_table (mkGlobals 9 true false)
           (mkProducer 8 14 valueFifo_init)).
  - discriminate.
  - reflexivity.
Defined.

(** C5.  With the divisor held at [N >= 1], any [N] consecutive ticks
    contain exactly one that goes past the tick-counter test.  The ticks
    split into ticks that return with index and queue untouched, then
    one tick that advances the index to [(index + 1) mod 32] and calls
    [enqueue] with the entry of the active table at that index (a queue
    with room ends one sample longer, with that entry last), then ticks
    that again return with index and queue untouched.  So the run
    completes with the index advanced once; and a tick that does not pass
    the test leaves the index and the queue as they were. *)
Theorem tick_skip_decimation (N : Z) (st : producer) (gs : list globals) :
  1 <= N ->
  Forall (fun g => delayMillis g = N) gs ->
  Z.of_nat (length gs) = N ->
  (exists pre g post st1 st2 st',
      gs = pre ++ g :: post
      /\ run_ticks st pre = Some st1 /\ ticks_skip st pre
      /\ TimerHandler0 g st1 = Some st2
      /\ index st2 = (index st + 1) mod 32
      /\ valueFifo st2
         = snd (enqueue maxSize (valueFifo st)
                  (array_get (active_table g) (index st2)))
      /\ (fifo_inv maxSize (valueFifo st) ->
          itemCount (valueFifo st) < maxSize ->
          contents maxSize (valueFifo st2)
          = contents maxSize (valueFifo st)
            ++ [array_get (active_table g) (index st2)])
      /\ run_ticks st2 post = Some st' /\ ticks_skip st2 post
      /\ run_ticks st gs = Some st')
  /\ (exists st', run_ticks st gs = Some st'
                  /\ index st' = (index st + 1) mod 32)
  /\ (forall g s, delayMillis g = N -> next_xbyte g s <> 0 ->
        exists s', TimerHandler0 g s = Some s'
                   /\ index s' = index s /\ valueFifo s' = valueFifo s).
Proof.
  intros HN Hall Hlen.
  destruct (window_split N gs st ltac:(lia) Hall Hlen)
    as (pre & g & post & st1 & st' & Hsplit & Hrun1 & Hskip1 & Htick
        & Hrun2 & Hskip2 & Hidx & Hq & Hrun).
  split; [|split].
  - exists pre, g, post, st1. eexists. exists st'.
    split; [exact Hsplit|]. split; [exact Hrun1|]. split; [exact Hskip1|].
    split; [exact Htick|]. cbn [index valueFifo].
    split; [apply next_index_eq|]. split; [reflexivity|].
    split; [|split; [exact Hrun2|split; [exact Hskip2 | exact Hrun]]].
    intros Hinv Hroom.
    destruct (enqueue_accepts maxSize eq_refl (valueFifo st)
                (array_get (active_table g) (next_index st)) Hinv Hroom)
      as (q' & Henq & _ & Hcont).
    rewrite Henq. exact Hcont.
  - exists st'. split; [exact Hrun|]. by rewrite Hidx, next_index_eq.
  - intros g0 s Hg Hnz. eexists. split.
    + apply tick_skips; [lia | exact Hnz].
    + split; reflexivity.
Qed.

Lemma tick_skip_decimation_witness :
  (exists pre g post st1 st2 st',
      replicate 9 (mkGlobals 9 false true) = pre ++ g :: post
      /\ run_ticks (mkProducer 5 31 valueFifo_init) pre = Some st1
      /\ ticks_skip (mkProducer 5 31 valueFifo_init) pre
      /\ TimerHandler0 g st1 = Some st2
      /\ index st2 = (index (mkProducer 5 31 valueFifo_init) + 1) mod 32
      /\ valueFifo st2
         = snd (enqueue maxSize (valueFifo (mkProducer 5 31 valueFifo_init))
                  (array_get (active_table g) (index st2)))
      /\ (fifo_inv maxSize (valueFifo (mkProducer 5 31 valueFifo_init)) ->
          itemCount (valueFifo (mkProducer 5 31 valueFifo_init)) < maxSize ->
          contents maxSize (valueFifo st2)
          = contents maxSize (valueFifo (mkProducer 5 31 valueFifo_init))
            ++ [array_get (active_table g) (index st2)])
      /\ run_ticks st2 post = Some st' /\ ticks_skip st2 post
      /\ run_ticks (mkProducer 5 31 valueFifo_init)
           (replicate 9 (mkGlobals 9 false true)) = Some st')
  /\ (exists st', run_ticks (mkProducer 5 31 valueFifo_init)
                    (replicate 9 (mkGlobals 9 false true)) = Some st'
                  /\ index st' = (index (mkProducer 5 31 valueFifo_init) + 1) mod 32)
  /\ (forall g s, delayMillis g = 9 -> next_xbyte g s <> 0 ->
        exists s', TimerHandler0 g s = Some s'
                   /\ index s' = index s /\ valueFifo s' = valueFifo s).
Proof.
  refine (tick_skip_decimation 9 (mkProducer 5 31 valueFifo_init)
            (replicate 9 (mkGlobals 9 false true)) _ _ _).
  - lia.
  - repeat constructor.
  - reflexivity.
Defined.

(** C9.  Every entry of the flatline table is 65, so a tick that goes past
    the tick-counter test while [isAlive] is false offers the queue the
    sample 65, whatever the index and whatever [isEKG]. *)
Theorem flatline_is_constant (g : globals) (st : producer) :
  isAlive g = false -> delayMillis g <> 0 -> next_xbyte g st = 0 ->
  deadPoints = replicate 32 65
  /\ exists st', TimerHandler0 g st = Some st'
       /\ valueFifo st' = snd (enqueue maxSize (valueFifo st) 65).
Proof.
  intros Hdead Hd Hx. split; [reflexivity|].
  eexists. split; [by apply tick_enqueues|]. simpl.
  do 2 f_equal. unfold active_table. rewrite Hdead.
  pose proof (next_index_range st) as Hr.
  assert (Hget : deadPoints !! Z.to_nat (next_index st) = Some 65).
  { change deadPoints with (replicate 32 65).
    apply lookup_replicate_2. lia. }
  unfold array_get. by rewrite (list_lookup_total_correct _ _ _ Hget).
Qed.

Lemma flatline_is_constant_witness :
  isAlive (mkGlobals 1 false false) = false
  /\ deadPoints = replicate 32 65
  /\ exists st', TimerHandler0 (mkGlobals 1 false false) (mkProducer 0 15 valueFifo_init)
                 = Some st'
       /\ valueFifo st' = snd (enqueue maxSize valueFifo_init 65).
Proof.
  split; [reflexivity|].
  apply (flatline_is_constant (mkGlobals 1 false false)
           (mkProducer 0 15 valueFifo_init)).
  - reflexivity.
  - discriminate.
  - reflexivity.
Defined.

(** C10.  The three tables have 32 entries each.  Any run of ticks with
    non-zero divisors from the initial state completes, and the index it
    leaves is in [0, 32); the index the next tick would use is in [0, 32)
    too, so its read is inside each of the three tables. *)
Theorem table_access_in_bounds (gs : list globals) :
  Forall (fun g => delayMillis g <> 0) gs ->
  length EKG = 32%nat /\ length ARY = 32%nat /\ length deadPoints = 32%nat
  /\ exists st, run_ticks producer_init gs = Some st
       /\ 0 <= index st < 32
       /\ 0 <= next_index st < 32
       /\ is_Some (EKG !! Z.to_nat (next_index st))
       /\ is_Some (ARY !! Z.to_nat (next_index st))
       /\ is_Some (deadPoints !! Z.to_nat (next_index st)).
Proof.
  intros Hall. do 3 (split; [reflexivity|]).
  destruct (run_ticks_total gs producer_init Hall) as [st Hrun].
  exists st. split; [exact Hrun|].
  pose proof (next_index_range st) as Hr.
  split; [|split; [exact Hr|]].
  - apply (run_ticks_index_range gs producer_init st); [simpl; lia | exact Hrun].
  - repeat split; apply lookup_lt_is_Some; simpl; lia.
Qed.

Lemma table_access_in_bounds_witness :
  Forall (fun g => delayMillis g <> 0) (replicate 40 (mkGlobals 9 true true))
  /\ length EKG = 32%nat /\ length ARY = 32%nat /\ length deadPoints = 32%nat
  /\ exists st, run_ticks producer_init (replicate 40 (mkGlobals 9 true true)) = Some st
       /\ 0 <= index st < 32
       /\ 0 <= next_index st < 32
       /\ is_Some (EKG !! Z.to_nat (next_index st))
       /\ is_Some (ARY !! Z.to_nat (next_index st))
       /\ is_Some (deadPoints !! Z.to_nat (next_index st)).
Proof.
  assert (H : Forall (fun g => delayMillis g <> 0) (replicate 40 (mkGlobals 9 true true))).
  { apply Forall_replicate. discriminate. }
  split; [exact H|].
  exact (table_access_in_bounds (replicate 40 (mkGlobals 9 true true)) H).
Defined.

(** ** The button tracker *)

(** What one call does when the pin reads [level]. *)
Lemma poll_level (level : bool) (p : poll) (b : button) (flag : bool) :
  reading p = Z.b2z level ->
  debounceAndToggle p b flag =
    let t := if eqb (lastButtonState b) level then lastDebounceTime b
             else millis_reset p in
    if (debounceDelay <? elapsed t p) && negb (eqb (buttonState b) level)
    then (mkButton level level t, if level then flag else negb flag)
    else (mkButton (buttonState b) level t, flag).
Proof.
  intros Hr. unfold debounceAndToggle, elapsed. rewrite Hr.
  destruct b as [bs ls t]. cbn [buttonState lastButtonState lastDebounceTime].
  destruct level, bs, ls; cbn; rewrite ?Z.gtb_ltb;
    match goal with |- context [debounceDelay <? ?e] =>
      destruct (debounceDelay <? e) end; reflexivity.
Qed.

(** The flag is left alone by every call after which the accepted state
    is HIGH. *)
Lemma no_toggle_on_high (p : poll) (b : button) (flag : bool) :
  buttonState (fst (debounceAndToggle p b flag)) = true ->
  snd (debounceAndToggle p b flag) = flag.
Proof.
  unfold debounceAndToggle.
  destruct (ulong_sub _ _ >? debounceDelay); [|reflexivity].
  destruct (negb (reading p =? Z.b2z (buttonState b))); [|reflexivity].
  cbn. intros ->. reflexivity.
Qed.

(** Every call stores the reading it made. *)
Lemma last_reading_stored (p : poll) (b : button) (flag : bool) :
  lastButtonState (fst (debounceAndToggle p b flag)) = int_to_bool (reading p).
Proof.
  unfold debounceAndToggle.
  destruct (ulong_sub _ _ >? debounceDelay);
    [destruct (negb (reading p =? Z.b2z (buttonState b)))|]; reflexivity.
Qed.

Lemma run_polls_app ps1 : forall b flag ps2,
  run_polls b flag (ps1 ++ ps2)
  = run_polls (fst (run_polls b flag ps1)) (snd (run_polls b flag ps1)) ps2.
Proof.
  induction ps1 as [|p ps1 IH]; intros b flag ps2; simpl; [reflexivity|].
  destruct (debounceAndToggle p b flag) as [b' flag']. apply IH.
Qed.

Lemma acceptances_app ps1 : forall b flag ps2,
  acceptances b flag (ps1 ++ ps2)
  = (acceptances b flag ps1
     + acceptances (fst (run_polls b flag ps1)) (snd (run_polls b flag ps1)) ps2)%nat.
Proof.
  induction ps1 as [|p ps1 IH]; intros b flag ps2; simpl; [reflexivity|].
  destruct (debounceAndToggle p b flag) as [b' flag']. rewrite IH. lia.
Qed.

Lemma toggles_app ps1 : forall b flag ps2,
  toggles b flag (ps1 ++ ps2)
  = (toggles b flag ps1
     + toggles (fst (run_polls b flag ps1)) (snd (run_polls b flag ps1)) ps2)%nat.
Proof.
  induction ps1 as [|p ps1 IH]; intros b flag ps2; simpl; [reflexivity|].
  destruct (debounceAndToggle p b flag) as [b' flag']. rewrite IH. lia.
Qed.

Section HeldLevel.

Variable level : bool.
Variable t0 : Z.

(** While the reading stays at [level] and the window that opened at
    [t0] has not run out, nothing is accepted. *)
Lemma held_within_window (bs flag : bool) (ps : list poll) :
  Forall (fun q => reading q = Z.b2z level) ps ->
  Forall (fun q => elapsed t0 q <= debounceDelay) ps ->
  run_polls (mkButton bs level t0) flag ps = (mkButton bs level t0, flag)
  /\ acceptances (mkButton bs level t0) flag ps = O
  /\ toggles (mkButton bs level t0) flag ps = O.
Proof.
  induction ps as [|p ps IH]; intros Hheld Hwin; simpl; [done|].
  apply Forall_cons in Hheld as [Hp Hheld].
  apply Forall_cons in Hwin as [Hw Hwin].
  rewrite (poll_level level p _ flag Hp). cbn.
  rewrite eqb_reflx.
  destruct (Z.ltb_spec debounceDelay (elapsed t0 p)); [lia|]. cbn.
  rewrite !eqb_reflx. by apply IH.
Qed.

(** Once [level] is the accepted state, holding the reading there
    changes nothing, however long it lasts. *)
Lemma held_after_acceptance (flag : bool) (ps : list poll) :
  Forall (fun q => reading q = Z.b2z level) ps ->
  run_polls (mkButton level level t0) flag ps = (mkButton level level t0, flag)
  /\ acceptances (mkButton level level t0) flag ps = O
  /\ toggles (mkButton level level t0) flag ps = O.
Proof.
  induction ps as [|p ps IH]; intros Hheld; simpl; [done|].
  apply Forall_cons in Hheld as [Hp Hheld].
  rewrite (poll_level level p _ flag Hp). cbn.
  rewrite eqb_reflx, andb_false_r, !eqb_reflx. by apply IH.
Qed.

End HeldLevel.

(** The reading leaves [negb level], the accepted state, for [level] and
    stays there.  [p0] is the call that sees the change, [p] the first
    call at which more than [debounceDelay] has gone by since. *)
Lemma level_change_accepted (level : bool) (b : button) (flag : bool)
      (p0 : poll) (pre : list poll) (p : poll) (post : list poll) :
  buttonState b = negb level ->
  lastButtonState b = negb level ->
  Forall (fun q => reading q = Z.b2z level) (p0 :: pre ++ p :: post) ->
  Forall (fun q => elapsed (millis_reset p0) q <= debounceDelay) (p0 :: pre) ->
  debounceDelay < elapsed (millis_reset p0) p ->
  let t0 := millis_reset p0 in
  let flag' := if level then flag else negb flag in
  run_polls b flag (p0 :: pre) = (mkButton (negb level) level t0, flag)
  /\ run_polls b flag (p0 :: pre ++ [p]) = (mkButton level level t0, flag')
  /\ run_polls b flag (p0 :: pre ++ p :: post) = (mkButton level level t0, flag')
  /\ acceptances b flag (p0 :: pre ++ p :: post) = 1%nat
  /\ toggles b flag (p0 :: pre ++ p :: post) = (if level then 0 else 1)%nat.
Proof.
  intros Hbs Hls Hheld Hwin Hlate t0 flag'.
  apply Forall_cons in Hheld as [Hp0 Hheld].
  apply Forall_app in Hheld as [Hpre Hheld].
  apply Forall_cons in Hheld as [Hp Hpost].
  apply Forall_cons in Hwin as [Hw0 Hwin]. fold t0 in Hw0, Hwin, Hlate.
  (* the call that sees the change *)
  assert (H0 : debounceAndToggle p0 b flag = (mkButton (negb level) level t0, flag)).
  { rewrite (poll_level level p0 b flag Hp0), Hls, Hbs. cbn.
    replace (eqb (negb level) level) with false by (by destruct level).
    cbn. fold t0. destruct (Z.ltb_spec debounceDelay (elapsed t0 p0)); [lia|].
    reflexivity. }
  (* the calls inside the window *)
  destruct (held_within_window level t0 (negb level) flag pre Hpre Hwin)
    as (Hrun1 & Hacc1 & Htog1).
  (* the first call after the window *)
  assert (H1 : debounceAndToggle p (mkButton (negb level) level t0) flag
               = (mkButton level level t0, flag')).
  { rewrite (poll_level level p _ flag Hp). cbn.
    rewrite eqb_reflx.
    replace (eqb (negb level) level) with false by (by destruct level).
    destruct (Z.ltb_spec debounceDelay (elapsed t0 p)); [|lia]. reflexivity. }
  (* the calls after the acceptance *)
  destruct (held_after_acceptance level t0 flag' post Hpost)
    as (Hrun2 & Hacc2 & Htog2).
  assert (Hne : eqb level (negb level) = false) by (by destruct level).
  assert (Hfl : (if eqb flag' flag then 0 else 1)%nat = (if level then 0 else 1)%nat).
  { subst flag'. by destruct level, flag. }
  repeat split.
  - simpl. rewrite H0. exact Hrun1.
  - simpl. rewrite H0, run_polls_app, Hrun1. simpl. rewrite H1. reflexivity.
  - simpl. rewrite H0, run_polls_app, Hrun1. simpl. rewrite H1. exact Hrun2.
  - simpl. rewrite H0. cbn [buttonState]. rewrite Hbs, eqb_reflx.
    rewrite acceptances_app, Hacc1, Hrun1. simpl. rewrite H1.
    cbn [buttonState]. rewrite Hne, Hacc2. reflexivity.
  - simpl. rewrite H0, eqb_reflx.
    rewrite toggles_app, Htog1, Hrun1. simpl. rewrite H1, Hfl, Htog2. lia.
Qed.

(** While the pin reads LOW and LOW is the accepted state, the flag is
    never inverted. *)
Lemma low_held_pressed (ps : list poll) : forall ls t flag,
  Forall (fun q => reading q = LOW) ps ->
  toggles (mkButton false ls t) flag ps = O.
Proof.
  induction ps as [|p ps IH]; intros ls t flag Hheld; simpl; [reflexivity|].
  apply Forall_cons in Hheld as [Hp Hheld].
  rewrite (poll_level false p _ flag Hp). cbn.
  rewrite andb_false_r, eqb_reflx. by apply IH.
Qed.

(** While the pin reads LOW the flag is inverted at most once, whatever
    state the tracker starts in. *)
Lemma low_held_at_most_once (ps : list poll) : forall b flag,
  Forall (fun q => reading q = LOW) ps -> (toggles b flag ps <= 1)%nat.
Proof.
  induction ps as [|p ps IH]; intros b flag Hheld; simpl; [lia|].
  apply Forall_cons in Hheld as [Hp Hheld].
  rewrite (poll_level false p b flag Hp). cbv zeta.
  destruct (_ && _).
  - rewrite (low_held_pressed ps _ _ _ Hheld). by destruct flag.
  - rewrite eqb_reflx. by apply IH.
Qed.

(** The first call at which the time gone by is exactly [debounceDelay]
    does not accept: from the initial state the pin reads HIGH from time 0
    on, and after the call at time 50 the accepted state is still LOW; the
    call at time 51 accepts. *)
Lemma window_is_exclusive_at_50 :
  lastButtonState button_init = false
  /\ elapsed 0 (poll_at true 0) < debounceDelay
  /\ debounceDelay <= elapsed 0 (poll_at true 50)
  /\ buttonState (fst (run_polls button_init true
                         [poll_at true 0; poll_at true 50])) = false
  /\ buttonState (fst (run_polls button_init true
                         [poll_at true 0; poll_at true 50; poll_at true 51])) = true.
Proof. vm_compute. repeat split; discriminate. Qed.

(** C6, amended.  The accepted state and the last reading are at one
    level, and from the call [p0] on the pin reads the other level,
    [level].  While the time since the clock value taken by [p0] is at
    most [debounceDelay] the accepted state stays as it was; at the first
    call [p] at which that time is strictly greater than [debounceDelay]
    the accepted state becomes [level]; it stays [level] over all later
    calls, and the whole sequence contains exactly one acceptance. *)
Theorem debounce_accepts_after_window (level : bool) (b : button) (flag : bool)
        (p0 : poll) (pre : list poll) (p : poll) (post : list poll) :
  buttonState b = negb level ->
  lastButtonState b = negb level ->
  Forall (fun q => reading q = Z.b2z level) (p0 :: pre ++ p :: post) ->
  Forall (fun q => elapsed (millis_reset p0) q <= debounceDelay) (p0 :: pre) ->
  debounceDelay < elapsed (millis_reset p0) p ->
  buttonState (fst (run_polls b flag (p0 :: pre))) = negb level
  /\ buttonState (fst (run_polls b flag (p0 :: pre ++ [p]))) = level
  /\ buttonState (fst (run_polls b flag (p0 :: pre ++ p :: post))) = level
  /\ acceptances b flag (p0 :: pre ++ p :: post) = 1%nat.
Proof.
  intros Hbs Hls Hheld Hwin Hlate.
  destruct (level_change_accepted level b flag p0 pre p post
              Hbs Hls Hheld Hwin Hlate) as (H1 & H2 & H3 & H4 & _).
  rewrite H1, H2, H3. repeat split. exact H4.
Qed.

Lemma debounce_accepts_after_window_witness :
  let b := mkButton true true 0 in
  let ps := [poll_at false 1000; poll_at false 1020; poll_at false 1050;
             poll_at false 1051; poll_at false 1100; poll_at false 1200] in
  buttonState (fst (run_polls b true (take 3 ps))) = true
  /\ buttonState (fst (run_polls b true (take 4 ps))) = false
  /\ buttonState (fst (run_polls b true ps)) = false
  /\ acceptances b true ps = 1%nat.
Proof.
  apply (debounce_accepts_after_window false (mkButton true true 0) true
           (poll_at false 1000) [poll_at false 1020; poll_at false 1050]
           (poll_at false 1051) [poll_at false 1100; poll_at false 1200]).
  - reflexivity.
  - reflexivity.
  - repeat constructor.
  - repeat constructor; vm_compute; discriminate.
  - reflexivity.
Defined.

(** A sustained press is not always counted.  First, from the released
    state a press is accepted (one inversion), the button is let go for
    30 ms, too short for the release to be accepted, and pressed again
    and held for a minute: the second press inverts nothing.  Second,
    the pin goes LOW 45 ms after power-on, before the idle HIGH level
    has been accepted, and stays LOW for a minute: nothing is inverted. *)
Lemma sustained_press_not_counted :
  (let b := mkButton true true 0 in
   let first := [poll_at false 100; poll_at false 151] in
   let release := [poll_at true 200; poll_at true 230] in
   let second := [poll_at false 240; poll_at false 300; poll_at false 1000;
                  poll_at false 30000; poll_at false 60000] in
   let before := run_polls b true (first ++ release) in
   lastButtonState (fst before) = true
   /\ Forall (fun q => reading q = LOW) second
   /\ debounceDelay < elapsed 240 (poll_at false 60000)
   /\ toggles (fst before) (snd before) second = O
   /\ toggles b true (first ++ release ++ second) = 1%nat)
  /\ (let boot := [poll_at true 0; poll_at true 40] in
      let press := [poll_at false 45; poll_at false 100; poll_at false 1000;
                    poll_at false 60000] in
      let before := run_polls button_init true boot in
      lastButtonState (fst before) = true
      /\ Forall (fun q => reading q = LOW) press
      /\ debounceDelay < elapsed 45 (poll_at false 60000)
      /\ toggles (fst before) (snd before) press = O
      /\ snd (run_polls button_init true (boot ++ press)) = true).
Proof.
  split; cbv zeta.
  - split; [reflexivity|]. split; [repeat constructor|].
    split; [reflexivity|]. split; reflexivity.
  - split; [reflexivity|]. split; [repeat constructor|].
    split; [reflexivity|]. split; reflexivity.
Qed.

(** C7, amended.  A press made while HIGH is the accepted state: the
    accepted state and the last reading are HIGH, and from the call [p0]
    on the pin reads LOW, over calls that reach past the debounce window
    ([p] is the first call later than the window).  However many calls
    follow, the flag is inverted exactly once and ends as the negation of
    what it was.  From any state at all, calls that read LOW invert the
    flag at most once, and not at all when LOW is already the accepted
    state (a press that follows a release too short to be accepted, or
    that comes before the idle level has been accepted after power-on).
    No call after which the accepted state is HIGH changes the flag, and
    every call stores its reading in [lastButtonState]. *)
Theorem press_toggles_once (b : button) (flag : bool)
        (p0 : poll) (pre : list poll) (p : poll) (post : list poll) :
  buttonState b = true ->
  lastButtonState b = true ->
  Forall (fun q => reading q = LOW) (p0 :: pre ++ p :: post) ->
  Forall (fun q => elapsed (millis_reset p0) q <= debounceDelay) (p0 :: pre) ->
  debounceDelay < elapsed (millis_reset p0) p ->
  toggles b flag (p0 :: pre ++ p :: post) = 1%nat
  /\ snd (run_polls b flag (p0 :: pre ++ p :: post)) = negb flag
  /\ (forall c f qs, Forall (fun q => reading q = LOW) qs ->
                     (toggles c f qs <= 1)%nat)
  /\ (forall c f qs, buttonState c = false ->
                     Forall (fun q => reading q = LOW) qs ->
                     toggles c f qs = O)
  /\ (forall q c f, buttonState (fst (debounceAndToggle q c f)) = true ->
                    snd (debounceAndToggle q c f) = f)
  /\ (forall q c f, lastButtonState (fst (debounceAndToggle q c f))
                    = int_to_bool (reading q)).
Proof.
  intros Hbs Hls Hheld Hwin Hlate.
  destruct (level_change_accepted false b flag p0 pre p post
              Hbs Hls Hheld Hwin Hlate) as (_ & _ & H3 & _ & H5).
  rewrite H3. split; [exact H5|]. split; [reflexivity|].
  split; [|split; [|split]].
  - intros c f qs. apply low_held_at_most_once.
  - intros [bs ls t] f qs Hlow Hqs. cbn in Hlow. subst bs.
    by apply low_held_pressed.
  - apply no_toggle_on_high.
  - apply last_reading_stored.
Qed.

Lemma press_toggles_once_witness :
  let b := mkButton true true 40 in
  let ps := [poll_at false 100; poll_at false 130; poll_at false 151;
             poll_at false 202; poll_at false 253; poll_at false 400] in
  toggles b true ps = 1%nat
  /\ snd (run_polls b true ps) = negb true
  /\ (forall c f qs, Forall (fun q => reading q = LOW) qs ->
                     (toggles c f qs <= 1)%nat)
  /\ (forall c f qs, buttonState c = false ->
                     Forall (fun q => reading q = LOW) qs ->
                     toggles c f qs = O)
  /\ (forall q c f, buttonState (fst (debounceAndToggle q c f)) = true ->
                    snd (debounceAndToggle q c f) = f)
  /\ (forall q c f, lastButtonState (fst (debounceAndToggle q c f))
                    = int_to_bool (reading q)).
Proof.
  apply (press_toggles_once (mkButton true true 40) true
           (poll_at false 100) [poll_at false 130]
           (poll_at false 151)
           [poll_at false 202; poll_at false 253; poll_at false 400]).
  - reflexivity.
  - reflexivity.
  - repeat constructor.
  - repeat constructor; vm_compute; discriminate.
  - reflexivity.
Defined.

(** ** The control-surface readings *)

(** On a reading in [0, 4095], [map] onto [lo, hi] is [lo] plus the
    integer part of the exact linear value, and it stays in [lo, hi]. *)
Lemma map_linear (x lo hi : Z) :
  0 <= x <= 4095 -> lo <= hi ->
  let y := map x 0 4095 lo hi in
  lo <= y <= hi
  /\ 4095 * (y - lo) <= x * (hi - lo) < 4095 * (y - lo + 1).
Proof.
  intros Hx Hlh y. subst y. unfold map.
  rewrite Z.sub_0_r. change (4095 - 0) with 4095.
  rewrite Z.quot_div_nonneg by nia.
  pose proof (Z.mul_div_le (x * (hi - lo)) 4095 ltac:(lia)) as Hle.
  pose proof (Z.mul_succ_div_gt (x * (hi - lo)) 4095 ltac:(lia)) as Hgt.
  set (d := x * (hi - lo) / 4095) in *.
  replace (d + lo - lo) with d by lia.
  assert (0 <= d) by (apply Z.div_pos; nia).
  assert (d <= hi - lo) by (apply Z.div_le_upper_bound; nia).
  lia.
Qed.

Lemma amp_check_all :
  forallb amp_check (Z.of_nat <$> seq 10 91) = true.
Proof. vm_compute. reflexivity. Qed.

Lemma amp_of_percent_ok (k : Z) :
  10 <= k <= 100 ->
  exists v, float_value (amp_of_percent k) = Some v
            /\ (1 # 10 <= v)%Q /\ (v <= 1)%Q
            /\ (Qabs (v * 100 - inject_Z k) * inject_Z (2 ^ 24) <= inject_Z k)%Q.
Proof.
  intros Hk.
  assert (Hin : In k (Z.of_nat <$> seq 10 91)).
  { apply list_elem_of_In, list_elem_of_fmap. exists (Z.to_nat k).
    split; [lia|]. apply elem_of_seq. lia. }
  pose proof (proj1 (forallb_forall _ _) amp_check_all k Hin) as Hc.
  unfold amp_check in Hc.
  destruct (float_value (amp_of_percent k)) as [v|]; [|discriminate].
  apply andb_true_iff in Hc as [Hc H3]. apply andb_true_iff in Hc as [H1 H2].
  exists v. split; [reflexivity|].
  repeat split; by apply Qle_bool_iff.
Qed.

(** The product [map] forms on these readings fits a 32-bit [long]. *)
Lemma map_product_fits (x lo hi : Z) :
  0 <= x <= 4095 -> 0 <= hi - lo <= 180 ->
  0 <= (x - 0) * (hi - lo) < 2 ^ 31.
Proof. intros Hx Hd. nia. Qed.

(** C8.  For readings in [0, 4095]: the amplitude is a finite float in
    [1/10, 1], the float nearest to [k / 100] for the percentage [k]
    that [map] yields in [10, 100]; the rate is in [40, 220] and the
    divisor in [9, 48]; each integer is the lower end of its range plus
    the integer part of the exact linear value; reading 0 gives the lower
    ends (the float nearest to one tenth, 40, 9) and reading 4095 the
    upper ends (1, 220, 48). *)
Theorem control_surface_ranges (amp_stick bpm_stick : Z) :
  0 <= amp_stick <= 4095 -> 0 <= bpm_stick <= 4095 ->
  let t := loop_tunables amp_stick bpm_stick in
  let k := map amp_stick 0 4095 10 100 in
  (exists v, float_value (amp t) = Some v
             /\ (1 # 10 <= v)%Q /\ (v <= 1)%Q
             /\ (Qabs (v * 100 - inject_Z k) * inject_Z (2 ^ 24) <= inject_Z k)%Q)
  /\ (10 <= k <= 100
      /\ 4095 * (k - 10) <= amp_stick * 90 < 4095 * (k - 10 + 1))
  /\ (40 <= bpm t <= 220
      /\ 4095 * (bpm t - 40) <= bpm_stick * 180 < 4095 * (bpm t - 40 + 1))
  /\ (9 <= delayMillis_set t <= 48
      /\ 4095 * (delayMillis_set t - 9) <= bpm_stick * 39
         < 4095 * (delayMillis_set t - 9 + 1))
  /\ loop_tunables 0 0 = mkTunables float_tenth 40 9
  /\ loop_tunables 4095 4095 = mkTunables float_one 220 48.
Proof.
  intros Ha Hb t k.
  pose proof (map_linear amp_stick 10 100 Ha ltac:(lia)) as Hk.
  pose proof (map_linear bpm_stick 40 220 Hb ltac:(lia)) as Hbpm.
  pose proof (map_linear bpm_stick 9 48 Hb ltac:(lia)) as Hdm.
  cbv zeta in Hk, Hbpm, Hdm. fold k in Hk.
  split; [|split; [|split; [|split; [|split]]]].
  - apply (amp_of_percent_ok k). tauto.
  - exact Hk.
  - exact Hbpm.
  - exact Hdm.
  - vm_compute. reflexivity.
  - vm_compute. reflexivity.
Qed.

Lemma control_surface_ranges_witness :
  (0 <= 2048 <= 4095)
  /\ let t := loop_tunables 2048 1000 in
     let k := map 2048 0 4095 10 100 in
     (exists v, float_value (amp t) = Some v
                /\ (1 # 10 <= v)%Q /\ (v <= 1)%Q
                /\ (Qabs (v * 100 - inject_Z k) * inject_Z (2 ^ 24) <= inject_Z k)%Q)
     /\ (10 <= k <= 100
         /\ 4095 * (k - 10) <= 2048 * 90 < 4095 * (k - 10 + 1))
     /\ (40 <= bpm t <= 220
         /\ 4095 * (bpm t - 40) <= 1000 * 180 < 4095 * (bpm t - 40 + 1))
     /\ (9 <= delayMillis_set t <= 48
         /\ 4095 * (delayMillis_set t - 9) <= 1000 * 39
            < 4095 * (delayMillis_set t - 9 + 1))
     /\ loop_tunables 0 0 = mkTunables float_tenth 40 9
     /\ loop_tunables 4095 4095 = mkTunables float_one 220 48.
Proof.
  split; [lia|].
  apply (control_surface_ranges 2048 1000); lia.
Defined.

(** * Further properties of the code *)

(** ** The ring buffer: filling, draining and overflow *)

Section QueueRuns.

Variable C : Z.
Hypothesis C_pos : 0 < C.

Lemma run_app (cs1 cs2 : list call) : forall q,
  run C q (cs1 ++ cs2)
  = (fst (run C (fst (run C q cs1)) cs2),
     snd (run C q cs1) ++ snd (run C (fst (run C q cs1)) cs2)).
Proof.
  induction cs1 as [|c cs1 IH]; intros q; simpl.
  - by destruct (run C q cs2).
  - destruct (do_call C q c) as [q1 o]. rewrite IH.
    by destruct (run C q1 cs1).
Qed.

Lemma reachable_inv (cs : list call) :
  fifo_inv C (fst (run C (SimpleFIFO_new C) cs)).
Proof. apply run_inv; [exact C_pos | by apply new_inv]. Qed.

Lemma run_cons (c : call) (cs : list call) (q : SimpleFIFO) :
  run C q (c :: cs)
  = (fst (run C (fst (do_call C q c)) cs),
     snd (do_call C q c) :: snd (run C (fst (do_call C q c)) cs)).
Proof.
  cbn [run]. destruct (do_call C q c) as [q1 o]. cbn [fst snd].
  destruct (run C q1 cs) as [q2 os]. reflexivity.
Qed.

(** Samples offered while there is room are all taken, in order. *)
Lemma enqueue_many (ds : list Z) : forall q,
  fifo_inv C q -> itemCount q + Z.of_nat (length ds) <= C ->
  snd (run C q (Enqueue <$> ds)) = Accepted <$> ds
  /\ fifo_inv C (fst (run C q (Enqueue <$> ds)))
  /\ contents C (fst (run C q (Enqueue <$> ds))) = contents C q ++ ds
  /\ itemCount (fst (run C q (Enqueue <$> ds))) = itemCount q + Z.of_nat (length ds).
Proof.
  induction ds as [|d ds IH]; intros q Hinv Hroom.
  - cbn. rewrite app_nil_r. split; [reflexivity|]. split; [exact Hinv|].
    split; [reflexivity | lia].
  - rewrite length_cons in Hroom.
    destruct (enqueue_accepts C C_pos q d Hinv ltac:(lia)) as (q' & Henq & Hq' & Hcont).
    assert (Hcount : itemCount q' = itemCount q + 1).
    { unfold enqueue in Henq. destruct (itemCount q <? C); [|discriminate].
      by injection Henq as <-. }
    destruct (IH q' Hq' ltac:(lia)) as (Hout & Hinv' & Hcont' & Hcnt').
    rewrite fmap_cons, run_cons. unfold do_call. rewrite Henq. cbn [fst snd].
    rewrite Hout, Hcont', Hcont, <- app_assoc, Hcnt', Hcount, length_cons.
    split; [reflexivity|]. split; [exact Hinv'|]. split; [reflexivity | lia].
Qed.

(** Samples offered to a full queue are all dropped and change nothing. *)
Lemma enqueue_many_full (ds : list Z) (q : SimpleFIFO) :
  C <= itemCount q -> run C q (Enqueue <$> ds) = (q, Dropped <$> ds).
Proof.
  intros Hfull. induction ds as [|d ds IH]; [reflexivity|].
  rewrite fmap_cons, run_cons. unfold do_call.
  rewrite (enqueue_rejects C q d Hfull). cbn [fst snd]. by rewrite IH.
Qed.

(** Reading as many times as there are queued samples hands them out,
    oldest first. *)
Lemma dequeue_many (vs : list Z) : forall q rest,
  fifo_inv C q -> contents C q = vs ++ rest ->
  snd (run C q (replicate (length vs) Dequeue)) = Delivered <$> vs
  /\ fifo_inv C (fst (run C q (replicate (length vs) Dequeue)))
  /\ contents C (fst (run C q (replicate (length vs) Dequeue))) = rest.
Proof.
  induction vs as [|v vs IH]; intros q rest Hinv Hcont.
  - cbn. split; [reflexivity|]. split; assumption.
  - assert (Hpos : 0 < itemCount q).
    { pose proof (contents_length C q ltac:(apply (inv_count C q Hinv))) as Hl.
      rewrite Hcont in Hl. simpl in Hl. lia. }
    destruct (dequeue_delivers C C_pos q 0 Hinv Hpos) as (v' & q' & Hdeq & Hq' & Hc).
    rewrite Hcont in Hc. injection Hc as <- Hc.
    destruct (IH q' rest Hq' (eq_sym Hc)) as (Hout & Hinv' & Hrest).
    rewrite length_cons, replicate_S, run_cons. unfold do_call.
    rewrite Hdeq. cbn [fst snd]. rewrite Hout.
    split; [reflexivity|]. split; assumption.
Qed.

End QueueRuns.

(** X1.  Take a queue in any state the calls can bring it to and offer it
    samples for which it has room: all are accepted; reading the queue
    empty afterwards hands out first what was queued before and then the
    new samples, each once and in the order offered, and leaves the queue
    empty.  This holds wherever the front of the ring stands, so also
    across the wrap of the indices. *)
Theorem fifo_fill_then_drain (C : Z) (cs : list call) (ds : list Z) :
  0 < C ->
  let q := fst (run C (SimpleFIFO_new C) cs) in
  itemCount q + Z.of_nat (length ds) <= C ->
  let n := (length (contents C q) + length ds)%nat in
  let r := run C q ((Enqueue <$> ds) ++ replicate n Dequeue) in
  snd r = (Accepted <$> ds) ++ (Delivered <$> (contents C q ++ ds))
  /\ contents C (fst r) = []
  /\ itemCount (fst r) = 0.
Proof.
  intros HC q Hroom n r.
  pose proof (reachable_inv C HC cs) as Hinv. fold q in Hinv.
  destruct (enqueue_many C HC ds q Hinv Hroom) as (Hout1 & Hinv1 & Hcont1 & _).
  subst r. rewrite (run_app C). cbn [fst snd].
  set (q1 := fst (run C q (Enqueue <$> ds))) in *.
  assert (Hn : n = length (contents C q ++ ds)) by (subst n; by rewrite length_app).
  rewrite Hn.
  destruct (dequeue_many C HC (contents C q ++ ds) q1 [] Hinv1
              ltac:(by rewrite app_nil_r)) as (Hout2 & Hinv2 & Hcont2).
  rewrite Hout1, Hout2. split; [reflexivity|]. split; [exact Hcont2|].
  pose proof (contents_length C _ ltac:(apply (inv_count C _ Hinv2))) as Hl.
  rewrite Hcont2 in Hl. simpl in Hl. lia.
Qed.

Lemma fifo_fill_then_drain_witness :
  let q := fst (run 4 (SimpleFIFO_new 4) [Enqueue 1; Enqueue 2; Enqueue 3; Dequeue; Dequeue]) in
  let r := run 4 q ((Enqueue <$> [7; 8; 9]) ++ replicate (length (contents 4 q) + 3) Dequeue) in
  snd r = (Accepted <$> [7; 8; 9]) ++ (Delivered <$> (contents 4 q ++ [7; 8; 9]))
  /\ contents 4 (fst r) = []
  /\ itemCount (fst r) = 0.
Proof.
  apply (fifo_fill_then_drain 4
           [Enqueue 1; Enqueue 2; Enqueue 3; Dequeue; Dequeue] [7; 8; 9]).
  - lia.
  - vm_compute. discriminate.
Defined.

(** X2.  Offer a reachable queue more samples than it has room for,
    with no reads in between: it accepts exactly as many as fit, from the
    head of the list, and drops all later ones; what it holds afterwards
    is what it held followed by the accepted ones. *)
Theorem fifo_overflow_drops_newest (C : Z) (cs : list call) (ds : list Z) :
  0 < C ->
  let q := fst (run C (SimpleFIFO_new C) cs) in
  let room := Z.to_nat (C - itemCount q) in
  let r := run C q (Enqueue <$> ds) in
  snd r = (Accepted <$> take room ds) ++ (Dropped <$> drop room ds)
  /\ contents C (fst r) = contents C q ++ take room ds.
Proof.
  intros HC q room r.
  pose proof (reachable_inv C HC cs) as Hinv. fold q in Hinv.
  pose proof (inv_count C q Hinv) as Hc.
  assert (Hrun : run C q (Enqueue <$> ds)
                 = run C q ((Enqueue <$> take room ds) ++ (Enqueue <$> drop room ds)))
    by (by rewrite <- fmap_app, take_drop).
  subst r. rewrite Hrun, (run_app C). cbn [fst snd].
  assert (Hlen : itemCount q + Z.of_nat (length (take room ds)) <= C).
  { rewrite length_take. subst room. lia. }
  destruct (enqueue_many C HC (take room ds) q Hinv Hlen) as (Hout & Hinv1 & Hcont & Hcnt).
  destruct (decide (length ds <= room)%nat) as [Hfit|Hover].
  - rewrite (drop_ge ds room Hfit). simpl. rewrite Hout, Hcont. done.
  - assert (Hfull : C <= itemCount (fst (run C q (Enqueue <$> take room ds)))).
    { rewrite Hcnt, length_take. subst room. lia. }
    rewrite (enqueue_many_full C (drop room ds) _ Hfull). cbn [fst snd].
    rewrite Hout, Hcont. done.
Qed.

Lemma fifo_overflow_drops_newest_witness :
  let q := fst (run 4 (SimpleFIFO_new 4) [Enqueue 1; Enqueue 2; Dequeue]) in
  let r := run 4 q (Enqueue <$> [5; 6; 7; 8; 9]) in
  snd r = (Accepted <$> [5; 6; 7]) ++ (Dropped <$> [8; 9])
  /\ contents 4 (fst r) = [2; 5; 6; 7].
Proof.
  apply (fifo_overflow_drops_newest 4 [Enqueue 1; Enqueue 2; Dequeue] [5; 6; 7; 8; 9]).
  lia.
Defined.

(** X3.  In every state the calls can bring a queue of capacity below
    2^31 to, the buffer still has [C] slots, both indices point inside
    it, the rear index is the front index plus the count modulo [C], the
    count is between 0 and [C], and neither index can overflow an [int]
    when incremented. *)
Theorem fifo_reachable_safe (C : Z) (cs : list call) :
  0 < C < 2 ^ 31 ->
  let q := fst (run C (SimpleFIFO_new C) cs) in
  length (buffer q) = Z.to_nat C
  /\ 0 <= frontIndex q < C /\ 0 <= rearIndex q < C
  /\ rearIndex q = (frontIndex q + itemCount q) mod C
  /\ is_Some (buffer q !! Z.to_nat (frontIndex q))
  /\ is_Some (buffer q !! Z.to_nat (rearIndex q))
  /\ frontIndex q + 1 < 2 ^ 31 /\ rearIndex q + 1 < 2 ^ 31
  /\ 0 <= itemCount q <= C.
Proof.
  intros HC q.
  pose proof (reachable_inv C ltac:(lia) cs) as Hinv. fold q in Hinv.
  destruct Hinv as [Hlen Hf Hc Hr].
  pose proof (Z.mod_pos_bound (frontIndex q + itemCount q) C ltac:(lia)) as Hm.
  rewrite <- Hr in Hm.
  split; [exact Hlen|]. split; [exact Hf|]. split; [exact Hm|].
  split; [exact Hr|].
  split; [apply lookup_lt_is_Some; lia|].
  split; [apply lookup_lt_is_Some; lia|]. lia.
Qed.

Lemma fifo_reachable_safe_witness :
  let q := fst (run maxSize (SimpleFIFO_new maxSize) [Enqueue 65; Enqueue 70; Dequeue]) in
  length (buffer q) = Z.to_nat maxSize
  /\ 0 <= frontIndex q < maxSize /\ 0 <= rearIndex q < maxSize
  /\ rearIndex q = (frontIndex q + itemCount q) mod maxSize
  /\ is_Some (buffer q !! Z.to_nat (frontIndex q))
  /\ is_Some (buffer q !! Z.to_nat (rearIndex q))
  /\ frontIndex q + 1 < 2 ^ 31 /\ rearIndex q + 1 < 2 ^ 31
  /\ 0 <= itemCount q <= maxSize.
Proof.
  apply (fifo_reachable_safe maxSize [Enqueue 65; Enqueue 70; Dequeue]).
  split; reflexivity.
Defined.

(** X4.  In every reachable state [isEmpty] is true exactly when no
    sample is queued, and [dequeue] succeeds exactly when [isEmpty] is
    false, handing out the oldest queued sample; so the inner test of
    [loop] never fails once the outer one has passed. *)
Theorem dequeue_succeeds_iff_not_empty (C : Z) (cs : list call) (data : Z) :
  0 < C ->
  let q := fst (run C (SimpleFIFO_new C) cs) in
  (isEmpty q = true <-> contents C q = [])
  /\ fst (fst (dequeue C q data)) = negb (isEmpty q)
  /\ (isEmpty q = false ->
      contents C q
      = snd (fst (dequeue C q data)) :: contents C (snd (dequeue C q data))).
Proof.
  intros HC q.
  pose proof (reachable_inv C HC cs) as Hinv. fold q in Hinv.
  pose proof (inv_count C q Hinv) as Hc.
  pose proof (contents_length C q ltac:(lia)) as Hl.
  unfold isEmpty. destruct (Z.eqb_spec (itemCount q) 0) as [Hz|Hnz].
  - split; [|split].
    + split; [|done]. intros _. apply nil_length_inv. lia.
    + by rewrite (dequeue_absent C q data ltac:(lia)).
    + discriminate.
  - destruct (dequeue_delivers C HC q data Hinv ltac:(lia)) as (v & q' & -> & _ & Hcont).
    split; [|split].
    + split; [discriminate|]. intros Hnil. rewrite Hnil in Hl. simpl in Hl. lia.
    + reflexivity.
    + intros _. exact Hcont.
Qed.

Lemma dequeue_succeeds_iff_not_empty_witness :
  let q := fst (run 4 (SimpleFIFO_new 4) [Enqueue 3; Enqueue 5]) in
  (isEmpty q = true <-> contents 4 q = [])
  /\ fst (fst (dequeue 4 q 0)) = negb (isEmpty q)
  /\ (isEmpty q = false ->
      contents 4 q = snd (fst (dequeue 4 q 0)) :: contents 4 (snd (dequeue 4 q 0))).
Proof.
  apply (dequeue_succeeds_iff_not_empty 4 [Enqueue 3; Enqueue 5] 0). lia.
Defined.

(** ** The sample producer over many ticks *)

Lemma next_index_only_index (x x' i : Z) (q q' : SimpleFIFO) :
  next_index (mkProducer x i q) = next_index (mkProducer x' i q').
Proof. reflexivity. Qed.

(** With divisor and flags fixed, up to [N] ticks offer the queue at most
    one sample: the entry of the active table at the advanced index. *)
Lemma window_const (g : globals) (N : Z) :
  0 < N -> delayMillis g = N -> forall (k : nat) (st : producer),
  Z.of_nat k <= N ->
  let c := xbyte st mod N in
  exists st', run_ticks st (replicate k g) = Some st'
    /\ xbyte st' mod N = (c + Z.of_nat k) mod N
    /\ (if N <=? c + Z.of_nat k
        then index st' = next_index st
             /\ valueFifo st'
                = snd (enqueue maxSize (valueFifo st)
                         (array_get (active_table g) (next_index st)))
        else index st' = index st /\ valueFifo st' = valueFifo st).
Proof.
  intros HN Hg. induction k as [|k IH]; intros st Hk c; subst c;
    pose proof (Z.mod_pos_bound (xbyte st) N HN) as Hc.
  - exists st. split; [reflexivity|]. rewrite Z.add_0_r.
    split; [by rewrite Z.mod_mod by lia|].
    destruct (Z.leb_spec N (xbyte st mod N)); [lia | done].
  - rewrite replicate_S. cbn [run_ticks].
    destruct (tick_cases g st N HN Hg) as [[Hc1 ->]|(Hc1 & x' & -> & Hx')].
    + destruct (IH (mkProducer 0 (next_index st)
                      (snd (enqueue maxSize (valueFifo st)
                              (array_get (active_table g) (next_index st)))))
                  ltac:(lia)) as (st' & Hrun & Hx & Hif).
      cbn [xbyte] in Hx, Hif. rewrite Z.mod_0_l, Z.add_0_l in Hx, Hif by lia.
      destruct (Z.leb_spec N (Z.of_nat k)); [lia|].
      destruct (Z.leb_spec N (xbyte st mod N + Z.of_nat (S k))); [|lia].
      exists st'. split; [exact Hrun|]. split; [|exact Hif].
      rewrite Hx.
      replace (xbyte st mod N + Z.of_nat (S k)) with (Z.of_nat k + 1 * N) by lia.
      by rewrite Z.mod_add by lia.
    + destruct (IH (mkProducer x' (index st) (valueFifo st)) ltac:(lia))
        as (st' & Hrun & Hx & Hif).
      cbn [xbyte index valueFifo] in Hx, Hif. rewrite Hx' in Hx, Hif.
      replace (xbyte st mod N + 1 + Z.of_nat k)
        with (xbyte st mod N + Z.of_nat (S k)) in Hx, Hif by lia.
      exists st'. split; [exact Hrun|]. split; [exact Hx|].
      destruct (N <=? xbyte st mod N + Z.of_nat (S k)); [|exact Hif].
      rewrite (next_index_only_index x' (xbyte st) (index st)
                 (valueFifo st) (valueFifo st)) in Hif.
      by destruct st.
Qed.

(** With divisor and flags fixed, [N] ticks from any state offer the
    queue exactly one sample. *)
Lemma period_const (g : globals) (N : Z) (st : producer) :
  0 < N -> delayMillis g = N ->
  exists st', run_ticks st (replicate (Z.to_nat N) g) = Some st'
    /\ index st' = next_index st
    /\ valueFifo st'
       = snd (enqueue maxSize (valueFifo st)
                (array_get (active_table g) (next_index st))).
Proof.
  intros HN Hg.
  destruct (window_const g N HN Hg (Z.to_nat N) st ltac:(lia))
    as (st' & Hrun & _ & Hif).
  pose proof (Z.mod_pos_bound (xbyte st) N HN) as Hc.
  rewrite Z2Nat.id in Hif by lia.
  destruct (Z.leb_spec N (xbyte st mod N + N)); [|lia].
  exists st'. split; [exact Hrun|]. exact Hif.
Qed.

(** A tick keeps the queue invariant and the index range, and whatever
    it queues comes from a table. *)
Lemma table_entry_is_sample (g : globals) (i : Z) :
  0 <= i < 32 -> table_sample (array_get (active_table g) i).
Proof.
  intros Hi. unfold table_sample, active_table.
  rewrite !elem_of_app.
  destruct (isAlive g); [destruct (isEKG g)|].
  - left. apply list_elem_of_lookup. exists (Z.to_nat i). by apply table_read.
  - right. left. apply list_elem_of_lookup. exists (Z.to_nat i). by apply table_read.
  - right. right. apply list_elem_of_lookup. exists (Z.to_nat i). by apply table_read.
Qed.

Lemma enqueue_keeps (q : SimpleFIFO) (d : Z) (P : Z -> Prop) :
  fifo_inv maxSize q -> Forall P (contents maxSize q) -> P d ->
  fifo_inv maxSize (snd (enqueue maxSize q d))
  /\ Forall P (contents maxSize (snd (enqueue maxSize q d))).
Proof.
  intros Hinv Hall Hd.
  destruct (Z.lt_ge_cases (itemCount q) maxSize) as [Hlt|Hge].
  - destruct (enqueue_accepts maxSize ltac:(reflexivity) q d Hinv Hlt)
      as (q' & Henq & Hq' & Hcont).
    rewrite Henq. cbn [snd]. rewrite Hcont.
    split; [exact Hq'|]. apply Forall_app. split; [exact Hall|]. by constructor.
  - rewrite (enqueue_rejects maxSize q d Hge). by split.
Qed.

Lemma tick_keeps (g : globals) (st st' : producer) (P : Z -> Prop) :
  (forall i, 0 <= i < 32 -> P (array_get (active_table g) i)) ->
  fifo_inv maxSize (valueFifo st) ->
  Forall P (contents maxSize (valueFifo st)) ->
  TimerHandler0 g st = Some st' ->
  fifo_inv maxSize (valueFifo st')
  /\ Forall P (contents maxSize (valueFifo st')).
Proof.
  intros HP Hinv Hall. unfold TimerHandler0.
  destruct (delayMillis g =? 0); [discriminate|].
  destruct (negb (next_xbyte g st =? 0)); intros [= <-]; cbn [valueFifo].
  - by split.
  - apply enqueue_keeps; [exact Hinv | exact Hall |].
    apply HP, next_index_range.
Qed.

Lemma run_ticks_keeps (gs : list globals) (P : Z -> Prop) : forall st st',
  (forall g i, 0 <= i < 32 -> P (array_get (active_table g) i)) ->
  fifo_inv maxSize (valueFifo st) ->
  Forall P (contents maxSize (valueFifo st)) ->
  run_ticks st gs = Some st' ->
  fifo_inv maxSize (valueFifo st')
  /\ Forall P (contents maxSize (valueFifo st')).
Proof.
  induction gs as [|g gs IH]; intros st st' HP Hinv Hall; simpl.
  - intros [= <-]. by split.
  - destruct (TimerHandler0 g st) as [st1|] eqn:Htick; [|discriminate].
    destruct (tick_keeps g st st1 P (HP g) Hinv Hall Htick) as [Hinv1 Hall1].
    by apply IH.
Qed.

Lemma reachable_producer (gs : list globals) (st : producer) :
  run_ticks producer_init gs = Some st ->
  fifo_inv maxSize (valueFifo st) /\ 0 <= index st < 32.
Proof.
  intros Hrun. split.
  - apply (run_ticks_keeps gs (fun _ => True) producer_init st);
      [done | by apply (new_inv maxSize) | by constructor | exact Hrun].
  - apply (run_ticks_index_range gs producer_init st); [simpl; lia | exact Hrun].
Qed.

Lemma replicate_periods (k n : nat) (g : globals) :
  replicate (S k * n) g = replicate n g ++ replicate (k * n) g.
Proof. by rewrite <- replicate_add. Qed.

Lemma accepted_count (q : SimpleFIFO) (d : Z) :
  itemCount q < maxSize ->
  itemCount (snd (enqueue maxSize q d)) = itemCount q + 1.
Proof.
  intros Hlt. unfold enqueue.
  destruct (Z.ltb_spec (itemCount q) maxSize); [reflexivity | lia].
Qed.

(** [k] periods of [N] ticks queue the next [k] entries of the active
    table. *)
Lemma periods_const (g : globals) (N : Z) :
  0 < N -> delayMillis g = N -> forall (k : nat) (st : producer),
  fifo_inv maxSize (valueFifo st) -> 0 <= index st < 32 ->
  itemCount (valueFifo st) + Z.of_nat k <= maxSize ->
  exists st', run_ticks st (replicate (k * Z.to_nat N) g) = Some st'
    /\ index st' = (index st + Z.of_nat k) mod 32
    /\ contents maxSize (valueFifo st')
       = contents maxSize (valueFifo st)
         ++ ((fun j => array_get (active_table g)
                         ((index st + 1 + Z.of_nat j) mod 32)) <$> seq 0 k).
Proof.
  intros HN Hg. induction k as [|k IH]; intros st Hinv Hidx Hroom.
  - exists st. split; [reflexivity|]. rewrite Z.add_0_r, Z.mod_small by lia.
    split; [reflexivity|]. by rewrite app_nil_r.
  - destruct (period_const g N st HN Hg) as (st1 & Hrun1 & Hi1 & Hq1).
    destruct (enqueue_accepts maxSize ltac:(reflexivity) (valueFifo st)
                (array_get (active_table g) (next_index st)) Hinv ltac:(lia))
      as (q' & Henq & Hq' & Hcont).
    pose proof (accepted_count (valueFifo st)
                  (array_get (active_table g) (next_index st)) ltac:(lia)) as Hcnt.
    rewrite <- Hq1 in Hcnt. rewrite Henq in Hq1. cbn [snd] in Hq1.
    pose proof (next_index_range st) as Hr. rewrite <- Hi1 in Hr.
    destruct (IH st1 ltac:(by rewrite Hq1) Hr ltac:(lia)) as (st' & Hrun & Hi & Hc).
    exists st'. split; [|split].
    + by rewrite replicate_periods, run_ticks_app, Hrun1.
    + rewrite Hi, Hi1, next_index_eq, Z.add_mod_idemp_l by lia. f_equal. lia.
    + rewrite Hc, Hq1, Hcont, <- app_assoc. f_equal.
      cbn [seq fmap list_fmap app]. f_equal.
      * rewrite next_index_eq. do 2 f_equal. lia.
      * rewrite <- fmap_S_seq, <- list_fmap_compose.
        apply list_fmap_ext. intros _ j _. cbn. f_equal.
        rewrite Hi1, next_index_eq.
        rewrite <- Z.add_assoc, Z.add_mod_idemp_l by lia. f_equal. lia.
Qed.


(** X5.  From any state the handler can reach, with divisor [N >= 1] and
    flags held fixed and room for [k] more samples, [k * N] ticks append
    to the queue the [k] entries of the active table that follow the
    current index, in cyclic order, and move the index on by [k] modulo
    32.  (From the initial state the first sample queued is therefore
    entry 1 of the table, and entry 0 is the thirty-second.) *)
Theorem waveform_in_cyclic_order
        (gs0 : list globals) (st : producer) (g : globals) (k : nat) :
  run_ticks producer_init gs0 = Some st ->
  1 <= delayMillis g ->
  itemCount (valueFifo st) + Z.of_nat k <= maxSize ->
  exists st',
    run_ticks st (replicate (k * Z.to_nat (delayMillis g)) g) = Some st'
    /\ index st' = (index st + Z.of_nat k) mod 32
    /\ contents maxSize (valueFifo st')
       = contents maxSize (valueFifo st)
         ++ ((fun j => array_get (active_table g)
                         ((index st + 1 + Z.of_nat j) mod 32)) <$> seq 0 k).
Proof.
  intros Hreach HN Hroom.
  destruct (reachable_producer gs0 st Hreach) as [Hinv Hidx].
  apply (periods_const g (delayMillis g)); (lia || done).
Qed.

Lemma waveform_in_cyclic_order_witness :
  exists st',
    run_ticks producer_init
      (replicate (32 * Z.to_nat (delayMillis (mkGlobals 9 true true)))
         (mkGlobals 9 true true)) = Some st'
    /\ index st' = (index producer_init + Z.of_nat 32) mod 32
    /\ contents maxSize (valueFifo st')
       = contents maxSize (valueFifo producer_init)
         ++ ((fun j => array_get (active_table (mkGlobals 9 true true))
                         ((index producer_init + 1 + Z.of_nat j) mod 32))
               <$> seq 0 32).
Proof.
  refine (waveform_in_cyclic_order [] producer_init (mkGlobals 9 true true) 32
            _ _ _).
  - reflexivity.
  - vm_compute. discriminate.
  - vm_compute. discriminate.
Defined.



Lemma enqueue_then_run (q : SimpleFIFO) (d : Z) (ds : list Z) :
  fst (run maxSize q (Enqueue <$> d :: ds))
  = fst (run maxSize (snd (enqueue maxSize q d)) (Enqueue <$> ds)).
Proof.
  rewrite fmap_cons, (run_cons maxSize). cbn [fst]. unfold do_call.
  by destruct (enqueue maxSize q d) as [ok q'].
Qed.

(** X7.  With the divisor held at [N >= 1] (the flags may change from
    tick to tick), [k * N] consecutive ticks from any state complete and
    call [enqueue] exactly [k] times: there are [k] of the ticks, in
    order, such that the queue at the end is the queue at the start
    after [k] calls of [enqueue], the [j]-th of them with the entry at
    index [(index + 1 + j) mod 32] of the table active at the [j]-th of
    those ticks.  The index has advanced by [k] modulo 32. *)
Theorem ticks_make_k_attempts (N : Z) (k : nat) : forall (gs : list globals) (st : producer),
  1 <= N ->
  Forall (fun g => delayMillis g = N) gs ->
  length gs = (k * Z.to_nat N)%nat ->
  exists (fired : list globals) (st' : producer),
    run_ticks st gs = Some st'
    /\ length fired = k
    /\ fired `sublist_of` gs
    /\ valueFifo st'
       = fst (run maxSize (valueFifo st)
                (Enqueue <$> imap (fun j g =>
                                     array_get (active_table g)
                                       ((index st + 1 + Z.of_nat j) mod 32))
                                  fired))
    /\ index st' mod 32 = (index st + Z.of_nat k) mod 32.
Proof.
  induction k as [|k IH]; intros gs st HN Hall Hlen.
  - destruct gs; [|discriminate]. exists [], st.
    split; [reflexivity|]. split; [reflexivity|]. split; [constructor|].
    split; [reflexivity|]. by rewrite Z.add_0_r.
  - set (n := Z.to_nat N) in *.
    assert (Hsplit : gs = take n gs ++ drop n gs) by (by rewrite take_drop).
    assert (Hl1 : length (take n gs) = n) by (rewrite length_take; lia).
    assert (Hl2 : length (drop n gs) = (k * n)%nat) by (rewrite length_drop; lia).
    destruct (window_split N (take n gs) st ltac:(lia)
                ltac:(by apply Forall_take) ltac:(lia))
      as (pre & g & post & _ & st1 & Hw & _ & _ & _ & _ & _ & Hi1 & Hq1 & Hrun1).
    destruct (IH (drop n gs) st1 HN ltac:(by apply Forall_drop) Hl2)
      as (fired & st' & Hrun2 & Hlf & Hsub & Hq2 & Hi2).
    exists (g :: fired), st'.
    split; [by rewrite Hsplit, run_ticks_app, Hrun1|].
    split; [by rewrite length_cons, Hlf|]. split; [|split].
    + rewrite Hsplit, Hw. change (g :: fired) with ([g] ++ fired).
      apply sublist_app; [|exact Hsub].
      apply sublist_inserts_l, sublist_skip, sublist_nil_l.
    + rewrite imap_cons, enqueue_then_run.
      rewrite Z.add_0_r, <- next_index_eq, <- Hq1, Hq2.
      do 3 f_equal. apply imap_ext. intros j g0 _. cbn. f_equal.
      rewrite Hi1, next_index_eq.
      rewrite <- Z.add_assoc, Z.add_mod_idemp_l by lia. f_equal. lia.
    + rewrite Hi2, Hi1, next_index_eq, Z.add_mod_idemp_l by lia.
      f_equal. lia.
Qed.

Lemma ticks_make_k_attempts_witness :
  exists (fired : list globals) (st' : producer),
    run_ticks (mkProducer 3 30 valueFifo_init)
      (replicate 20 (mkGlobals 4 true true) ++ replicate 20 (mkGlobals 4 false true))
    = Some st'
    /\ length fired = 10%nat
    /\ fired `sublist_of`
         (replicate 20 (mkGlobals 4 true true) ++ replicate 20 (mkGlobals 4 false true))
    /\ valueFifo st'
       = fst (run maxSize (valueFifo (mkProducer 3 30 valueFifo_init))
                (Enqueue <$> imap (fun j g =>
                                     array_get (active_table g)
                                       ((index (mkProducer 3 30 valueFifo_init)
                                         + 1 + Z.of_nat j) mod 32))
                                  fired))
    /\ index st' mod 32
       = (index (mkProducer 3 30 valueFifo_init) + Z.of_nat 10) mod 32.
Proof.
  refine (ticks_make_k_attempts 4 10
            (replicate 20 (mkGlobals 4 true true) ++ replicate 20 (mkGlobals 4 false true))
            (mkProducer 3 30 valueFifo_init) _ _ _).
  - lia.
  - apply Forall_app. split; by apply Forall_replicate.
  - reflexivity.
Defined.

(** ** The button tracker: glitches, clicks and the clock's wrap *)

(** Calls that read the level already accepted change neither the
    accepted state nor the flag, whatever the clock shows. *)
Lemma held_at_accepted_level (level : bool) (ps : list poll) : forall ls t flag,
  Forall (fun q => reading q = Z.b2z level) ps ->
  buttonState (fst (run_polls (mkButton level ls t) flag ps)) = level
  /\ snd (run_polls (mkButton level ls t) flag ps) = flag
  /\ acceptances (mkButton level ls t) flag ps = O
  /\ toggles (mkButton level ls t) flag ps = O.
Proof.
  induction ps as [|p ps IH]; intros ls t flag Hheld; [done|].
  apply Forall_cons in Hheld as [Hp Hheld].
  cbn [run_polls acceptances toggles].
  rewrite (poll_level level p _ flag Hp). cbn.
  rewrite eqb_reflx, andb_false_r, !eqb_reflx. by apply IH.
Qed.

(** Calls that read HIGH never invert the flag. *)
Lemma high_never_toggles (ps : list poll) : forall b flag,
  Forall (fun q => reading q = HIGH) ps ->
  snd (run_polls b flag ps) = flag /\ toggles b flag ps = O.
Proof.
  induction ps as [|p ps IH]; intros b flag Hheld; [done|].
  apply Forall_cons in Hheld as [Hp Hheld].
  cbn [run_polls toggles].
  rewrite (poll_level true p b flag Hp). cbv zeta.
  destruct (_ && _); rewrite eqb_reflx; by apply IH.
Qed.

Lemma elapsed_after (t0 d : Z) (level : bool) :
  0 <= d < 2 ^ 32 ->
  elapsed t0 (poll_at level ((t0 + d) mod 2 ^ 32)) = d.
Proof.
  intros Hd. unfold elapsed, ulong_sub, poll_at. cbn [millis_check].
  rewrite Zminus_mod_idemp_l.
  replace (t0 + d - t0) with d by lia. apply Z.mod_small. lia.
Qed.

(** X8.  A glitch is filtered out.  The tracker is settled at a level
    (accepted state and last reading agree); the pin then reads the other
    level over calls that all fall within [debounceDelay] of the clock
    value taken by the first of them, and afterwards reads the settled
    level again, for any number of calls at any times.  Over the whole
    sequence the accepted state is never changed and the flag is never
    inverted. *)
Theorem glitch_is_filtered (level : bool) (b : button) (flag : bool)
        (g0 : poll) (glitch back : list poll) :
  buttonState b = level ->
  lastButtonState b = level ->
  Forall (fun q => reading q = Z.b2z (negb level)) (g0 :: glitch) ->
  Forall (fun q => elapsed (millis_reset g0) q <= debounceDelay) (g0 :: glitch) ->
  Forall (fun q => reading q = Z.b2z level) back ->
  buttonState (fst (run_polls b flag (g0 :: glitch ++ back))) = level
  /\ snd (run_polls b flag (g0 :: glitch ++ back)) = flag
  /\ acceptances b flag (g0 :: glitch ++ back) = O
  /\ toggles b flag (g0 :: glitch ++ back) = O.
Proof.
  intros Hbs Hls Hglitch Hwin Hback.
  apply Forall_cons in Hglitch as [Hg0 Hglitch].
  apply Forall_cons in Hwin as [Hw0 Hwin].
  set (t0 := millis_reset g0) in *.
  assert (H0 : debounceAndToggle g0 b flag = (mkButton level (negb level) t0, flag)).
  { rewrite (poll_level (negb level) g0 b flag Hg0), Hls, Hbs. cbn.
    replace (eqb level (negb level)) with false by (by destruct level).
    cbn. fold t0. destruct (Z.ltb_spec debounceDelay (elapsed t0 g0)); [lia|].
    reflexivity. }
  destruct (held_within_window (negb level) t0 level flag glitch Hglitch Hwin)
    as (Hrun1 & Hacc1 & Htog1).
  destruct (held_at_accepted_level level back (negb level) t0 flag Hback)
    as (Hbs2 & Hfl2 & Hacc2 & Htog2).
  cbn [run_polls acceptances toggles]. rewrite H0. cbn [buttonState].
  rewrite Hbs, !eqb_reflx, run_polls_app, acceptances_app, toggles_app, Hrun1.
  cbn [fst snd]. rewrite Hacc1, Htog1, Hacc2, Htog2. done.
Qed.

Lemma glitch_is_filtered_witness :
  let b := mkButton true true 0 in
  let ps := poll_at false 1000
            :: [poll_at false 1010; poll_at false 1050]
               ++ [poll_at true 1060; poll_at true 2000; poll_at true 9000] in
  buttonState (fst (run_polls b true ps)) = true
  /\ snd (run_polls b true ps) = true
  /\ acceptances b true ps = O
  /\ toggles b true ps = O.
Proof.
  refine (glitch_is_filtered true (mkButton true true 0) true
            (poll_at false 1000) [poll_at false 1010; poll_at false 1050]
            [poll_at true 1060; poll_at true 2000; poll_at true 9000] _ _ _ _ _).
  - reflexivity.
  - reflexivity.
  - repeat constructor.
  - repeat constructor; vm_compute; discriminate.
  - repeat constructor.
Defined.



(** X10.  The window is measured correctly when the millisecond counter
    wraps.  A change of level is seen at clock value [t0]; the next call
    comes [d] milliseconds later, its clock value being [t0 + d] reduced
    modulo 2^32.  The change is accepted at that call exactly when [d]
    exceeds [debounceDelay], wherever [t0] lies and whether or not the
    counter has wrapped in between. *)
Theorem debounce_across_clock_wrap (level : bool) (b : button) (flag : bool)
        (t0 d : Z) :
  buttonState b = negb level ->
  lastButtonState b = negb level ->
  0 <= d < 2 ^ 32 ->
  buttonState (fst (run_polls b flag
                      [poll_at level t0; poll_at level ((t0 + d) mod 2 ^ 32)]))
  = (if debounceDelay <? d then level else negb level).
Proof.
  intros Hbs Hls Hd.
  assert (Hr : forall t, reading (poll_at level t) = Z.b2z level) by done.
  assert (He0 : elapsed t0 (poll_at level t0) = 0).
  { unfold elapsed, ulong_sub, poll_at. cbn [millis_check].
    by rewrite Z.sub_diag. }
  pose proof (elapsed_after t0 d level Hd) as He.
  cbn [run_polls].
  rewrite (poll_level level _ b flag (Hr t0)), Hls, Hbs. cbv zeta.
  replace (eqb (negb level) level) with false by (by destruct level).
  cbn [millis_reset poll_at]. fold (poll_at level t0). rewrite He0. cbn.
  rewrite (poll_level level _ _ _ (Hr ((t0 + d) mod 2 ^ 32))). cbn.
  rewrite eqb_reflx, He.
  replace (eqb (negb level) level) with false by (by destruct level).
  by destruct (debounceDelay <? d).
Qed.

Lemma debounce_across_clock_wrap_witness :
  buttonState (fst (run_polls (mkButton true true 0) true
                      [poll_at false 4294967290;
                       poll_at false ((4294967290 + 60) mod 2 ^ 32)]))
  = (if debounceDelay <? 60 then false else negb false).
Proof.
  refine (debounce_across_clock_wrap false (mkButton true true 0) true
            4294967290 60 _ _ _).
  - reflexivity.
  - reflexivity.
  - split; [discriminate | reflexivity].
Defined.

(** X11.  A pin that has stayed at one level since the program started,
    whichever level and for however long, never inverts its flag: a
    button held down at power-on is not taken for a press. *)
Theorem level_held_since_boot_never_toggles
        (level : bool) (flag : bool) (ps : list poll) :
  Forall (fun q => reading q = Z.b2z level) ps ->
  snd (run_polls button_init flag ps) = flag
  /\ toggles button_init flag ps = O.
Proof.
  intros Hheld. destruct level.
  - by apply high_never_toggles.
  - destruct (held_at_accepted_level false ps false 0 flag Hheld)
      as (_ & Hfl & _ & Htog). by split.
Qed.

Lemma level_held_since_boot_never_toggles_witness :
  snd (run_polls button_init true
         [poll_at false 0; poll_at false 40; poll_at false 51; poll_at false 5000]) = true
  /\ toggles button_init true
       [poll_at false 0; poll_at false 40; poll_at false 51; poll_at false 5000] = O.
Proof.
  refine (level_held_since_boot_never_toggles false true
            [poll_at false 0; poll_at false 40; poll_at false 51; poll_at false 5000] _).
  repeat constructor.
Defined.

(** ** Delivery and the program as a whole *)

Lemma scale_check_all :
  forallb (fun v => forallb (scale_check v) (Z.of_nat <$> seq 10 91))
          (Z.of_nat <$> seq 0 256) = true.
Proof. vm_compute. reflexivity. Qed.

Lemma in_Z_range (lo n : nat) (x : Z) :
  Z.of_nat lo <= x < Z.of_nat lo + Z.of_nat n -> In x (Z.of_nat <$> seq lo n).
Proof.
  intros Hx. apply list_elem_of_In, list_elem_of_fmap. exists (Z.to_nat x).
  split; [lia|]. apply elem_of_seq. lia.
Qed.

Lemma scale_check_ok (val k : Z) :
  0 <= val <= 255 -> 10 <= k <= 100 -> scale_check val k = true.
Proof.
  intros Hv Hk.
  pose proof (proj1 (forallb_forall _ _) scale_check_all val
                (in_Z_range 0 256 val ltac:(lia))) as Hrow.
  exact (proj1 (forallb_forall _ _) Hrow k (in_Z_range 10 91 k ltac:(lia))).
Qed.

Lemma scaled_by_percent (val k : Z) :
  0 <= val <= 255 -> 10 <= k <= 100 ->
  exists out, scaled_sample val (amp_of_percent k) = Some out
    /\ 0 <= out /\ val * k / 100 - 1 <= out <= val * k / 100
    /\ (k = 100 -> out = val).
Proof.
  intros Hv Hk. pose proof (scale_check_ok val k Hv Hk) as Hc.
  unfold scale_check in Hc.
  destruct (scaled_sample val (amp_of_percent k)) as [out|]; [|discriminate].
  apply andb_true_iff in Hc as [Hc H4]. apply andb_true_iff in Hc as [Hc H3].
  apply andb_true_iff in Hc as [H1 H2].
  exists out. split; [reflexivity|]. split; [lia|]. split; [lia|].
  intros ->. simpl in H4. lia.
Qed.

(** X12.  The value handed to [notifyClients] for a sample [val] in
    [0, 255] when the amplitude stick reads [a] in [0, 4095]: with [k]
    the percentage in [10, 100] computed from [a], the [float] product
    converted to [uint8_t] is defined, and it is the integer part of
    [val * k / 100] or, through rounding of [k / 100] to [float], one
    less; it never exceeds [val], and with the stick at 4095 it is [val]
    itself. *)
Theorem delivered_sample_scaling (val a r : Z) :
  0 <= val <= 255 -> 0 <= a <= 4095 ->
  let k := map a 0 4095 10 100 in
  exists out, scaled_sample val (amp (loop_tunables a r)) = Some out
    /\ val * k / 100 - 1 <= out <= val * k / 100
    /\ 0 <= out <= val
    /\ (a = 4095 -> out = val).
Proof.
  intros Hv Ha k.
  destruct (map_linear a 10 100 Ha ltac:(lia)) as [Hk _]. fold k in Hk.
  destruct (scaled_by_percent val k Hv Hk) as (out & Hs & H0 & Hb & H100).
  exists out. split; [exact Hs|]. split; [exact Hb|]. split.
  - split; [exact H0|].
    assert (val * k / 100 <= val) by (apply Z.div_le_upper_bound; nia). lia.
  - intros ->. apply H100. reflexivity.
Qed.

Lemma delivered_sample_scaling_witness :
  let k := map 1957 0 4095 10 100 in
  exists out, scaled_sample 100 (amp (loop_tunables 1957 0)) = Some out
    /\ 100 * k / 100 - 1 <= out <= 100 * k / 100
    /\ 0 <= out <= 100
    /\ (1957 = 4095 -> out = 100).
Proof.
  refine (delivered_sample_scaling 100 1957 0 _ _); lia.
Defined.

(** The off-by-one case is met in practice: sample 100 at 53 per cent is
    delivered as 52. *)
Example scaled_100_at_53_percent :
  map 1957 0 4095 10 100 = 53
  /\ scaled_sample 100 (amp (loop_tunables 1957 0)) = Some 52.
Proof. vm_compute. split; reflexivity. Qed.

Lemma table_sample_range (v : Z) : table_sample v -> 10 <= v <= 230.
Proof.
  unfold table_sample. revert v. apply Forall_forall.
  unfold EKG, ARY, deadPoints. cbn [app].
  repeat (constructor; [lia|]). constructor.
Qed.

Lemma scaled_by_zero_all :
  forallb (fun v => match scaled_sample v (S754_zero false) with
                    | Some out => out =? 0
                    | None => false
                    end) (Z.of_nat <$> seq 0 256) = true.
Proof. vm_compute. reflexivity. Qed.

Lemma scaled_by_zero (val : Z) :
  0 <= val <= 255 -> scaled_sample val (S754_zero false) = Some 0.
Proof.
  intros Hv.
  pose proof (proj1 (forallb_forall _ _) scaled_by_zero_all val
                (in_Z_range 0 256 val ltac:(lia))) as Hc.
  cbv beta in Hc.
  destruct (scaled_sample val (S754_zero false)) as [out|]; [|discriminate].
  f_equal. lia.
Qed.

(** What [deliver] does with a queue that holds a sample. *)
Lemma deliver_some (m : machine) :
  machine_ok m -> 0 < itemCount (valueFifo (m_producer m)) ->
  exists v q' out,
    dequeue maxSize (valueFifo (m_producer m)) 0 = (true, v, q')
    /\ contents maxSize (valueFifo (m_producer m)) = v :: contents maxSize q'
    /\ fifo_inv maxSize q'
    /\ scaled_sample v (m_amp m) = Some out /\ 0 <= out <= v
    /\ deliver m
       = Some (mkMachine (mkProducer (xbyte (m_producer m)) (index (m_producer m)) q')
                 (m_globals m) (m_amp m) (m_bpm m) (m_ary m) (m_kll m), [out]).
Proof.
  intros (Hd & Hx & Hi & Hinv & Hall & Hamp) Hpos.
  destruct (dequeue_delivers maxSize ltac:(reflexivity) _ 0 Hinv Hpos)
    as (v & q' & Hdeq & Hq' & Hcont).
  rewrite Hcont in Hall. apply Forall_cons in Hall as [Hv Hall].
  apply table_sample_range in Hv.
  assert (Hout : exists out, scaled_sample v (m_amp m) = Some out /\ 0 <= out <= v).
  { destruct Hamp as [->|(k & Hk & ->)].
    - exists 0. split; [apply scaled_by_zero; lia | lia].
    - destruct (scaled_by_percent v k ltac:(lia) Hk) as (out & Hs & H0 & Hb & _).
      exists out. split; [exact Hs|].
      assert (v * k / 100 <= v) by (apply Z.div_le_upper_bound; nia). lia. }
  destruct Hout as (out & Hs & Hb).
  exists v, q', out. do 5 (split; [assumption|]).
  unfold deliver, isEmpty.
  destruct (Z.eqb_spec (itemCount (valueFifo (m_producer m))) 0); [lia|].
  cbn [negb]. rewrite Hdeq, Hs. reflexivity.
Qed.

(** What [deliver] does with an empty queue. *)
Lemma deliver_none (m : machine) :
  itemCount (valueFifo (m_producer m)) = 0 -> deliver m = Some (m, []).
Proof. intros Hz. unfold deliver, isEmpty. rewrite Hz. reflexivity. Qed.

Lemma step_ok (m : machine) (e : event) :
  machine_ok m -> sticks_in_range e ->
  exists m' out, step m e = Some (m', out) /\ machine_ok m'
                 /\ Forall (fun v => 0 <= v <= 230) out.
Proof.
  intros Hok Hin. pose proof Hok as (Hd & Hx & Hi & Hinv & Hall & Hamp).
  destruct e as [|a r r'| |p|p]; cbn [step].
  - (* the interrupt *)
    destruct (TimerHandler0 (m_globals m) (m_producer m)) as [st'|] eqn:Htick.
    + do 2 eexists. split; [reflexivity|]. split; [|constructor].
      destruct (tick_keeps _ _ _ table_sample
                  (table_entry_is_sample (m_globals m)) Hinv Hall Htick)
        as [Hinv' Hall'].
      pose proof (tick_index_range _ _ _ Hi Htick) as Hi'.
      unfold machine_ok. cbn.
      split; [exact Hd|]. split; [|tauto].
      unfold TimerHandler0 in Htick.
      destruct (delayMillis (m_globals m) =? 0); [discriminate|].
      pose proof (Z.rem_bound_pos (xbyte (m_producer m) + 1)
                    (delayMillis (m_globals m)) ltac:(lia) ltac:(lia)) as Hr.
      fold (next_xbyte (m_globals m) (m_producer m)) in Hr.
      destruct (negb (next_xbyte (m_globals m) (m_producer m) =? 0));
        injection Htick as <-; cbn; lia.
    + exfalso. unfold TimerHandler0 in Htick.
      destruct (Z.eqb_spec (delayMillis (m_globals m)) 0); [lia|].
      by destruct (negb _).
  - (* the sticks *)
    destruct Hin as (Ha & Hr & Hr').
    do 2 eexists. split; [reflexivity|]. split; [|constructor].
    destruct (map_linear r' 9 48 Hr' ltac:(lia)) as [Hdm _].
    destruct (map_linear a 10 100 Ha ltac:(lia)) as [Hk _].
    unfold machine_ok, read_sticks. cbn.
    split; [exact Hdm|]. do 4 (split; [assumption|]).
    right. exists (map a 0 4095 10 100). split; [exact Hk | reflexivity].
  - (* the delivery *)
    destruct (Z.eq_dec (itemCount (valueFifo (m_producer m))) 0) as [Hz|Hnz].
    + rewrite (deliver_none m Hz). do 2 eexists.
      split; [reflexivity|]. split; [exact Hok | constructor].
    + pose proof (inv_count _ _ Hinv) as Hc.
      destruct (deliver_some m Hok ltac:(lia))
        as (v & q' & out & _ & Hcont & Hq' & _ & Hb & ->).
      rewrite Hcont in Hall. apply Forall_cons in Hall as [Hv Hall].
      apply table_sample_range in Hv.
      do 2 eexists. split; [reflexivity|]. split.
      * unfold machine_ok. cbn. tauto.
      * constructor; [lia | constructor].
  - (* the ARY button *)
    do 2 eexists. split; [reflexivity|]. split; [|constructor].
    unfold poll_ary.
    destruct (debounceAndToggle p (m_ary m) (isEKG (m_globals m))) as [b' f'].
    unfold machine_ok. cbn. tauto.
  - (* the KLL button *)
    do 2 eexists. split; [reflexivity|]. split; [|constructor].
    unfold poll_kll.
    destruct (debounceAndToggle p (m_kll m) (isAlive (m_globals m))) as [b' f'].
    unfold machine_ok. cbn. tauto.
Qed.

Lemma machine_init_ok : machine_ok machine_init.
Proof.
  unfold machine_ok, machine_init. cbn.
  split; [lia|]. split; [lia|]. split; [lia|].
  split; [by apply (new_inv maxSize)|]. split; [constructor | by left].
Qed.

Lemma run_events_ok (es : list event) : forall m,
  machine_ok m -> Forall sticks_in_range es ->
  exists m' outs, run_events m es = Some (m', outs) /\ machine_ok m'
                  /\ Forall (fun v => 0 <= v <= 230) outs.
Proof.
  induction es as [|e es IH]; intros m Hok Hin.
  - exists m, []. split; [reflexivity|]. split; [exact Hok | constructor].
  - apply Forall_cons in Hin as [He Hin].
    destruct (step_ok m e Hok He) as (m1 & out1 & Hstep & Hok1 & Hout1).
    destruct (IH m1 Hok1 Hin) as (m2 & out2 & Hrun & Hok2 & Hout2).
    exists m2, (out1 ++ out2). cbn [run_events]. rewrite Hstep, Hrun.
    split; [reflexivity|]. split; [exact Hok2|]. by apply Forall_app.
Qed.

(** The slot [dequeue] reads and the slot [enqueue] writes exist. *)
Lemma queue_slots_exist (q : SimpleFIFO) :
  fifo_inv maxSize q ->
  0 <= rearIndex q < maxSize
  /\ (0 < itemCount q ->
      buffer q !! Z.to_nat (frontIndex q) = Some (snd (fst (dequeue maxSize q 0))))
  /\ (itemCount q < maxSize -> forall d,
      buffer (snd (enqueue maxSize q d)) !! Z.to_nat (rearIndex q) = Some d).
Proof.
  intros [Hlen Hf Hc Hr].
  pose proof (Z.mod_pos_bound (frontIndex q + itemCount q) maxSize eq_refl) as Hm.
  rewrite <- Hr in Hm. split; [exact Hm|]. split.
  - intros Hpos. unfold dequeue.
    destruct (Z.gtb_spec (itemCount q) 0); [|lia]. cbn [fst snd].
    unfold array_get. apply list_lookup_lookup_total_lt. lia.
  - intros Hroom d. unfold enqueue.
    destruct (Z.ltb_spec (itemCount q) maxSize); [|lia]. cbn [snd buffer].
    unfold array_set. apply list_lookup_insert_eq. lia.
Qed.

Lemma active_table_length (g : globals) : length (active_table g) = 32%nat.
Proof. unfold active_table. by destruct (isAlive g), (isEKG g). Qed.

(** X13.  Take any interleaving of timer interrupts and parts of [loop]
    in which the interrupts fall between the parts, the sticks reading
    values of the 12-bit converter.  The run is defined throughout: the
    handler never divides by zero and every [float] product fits
    [uint8_t].  At its end [delayMillis] is in [9, 48], the tick counter
    in [0, 48), the table index in [0, 32), and the entry the next
    interrupt reads exists in whichever table is active; the buffer has
    512 slots, front and rear index are in [0, 512), the slot a
    [dequeue] would read exists and holds the value it returns, and the
    slot an [enqueue] would write exists; the queue holds between 0 and
    512 samples, each a table value in [10, 230]; and every value handed
    to [notifyClients] is in [0, 230].  Since every state of a run ends
    a shorter run, this holds at every point of the run. *)
Theorem program_runs_safely (es : list event) :
  Forall sticks_in_range es ->
  exists m outs,
    run_events machine_init es = Some (m, outs)
    /\ 9 <= delayMillis (m_globals m) <= 48
    /\ 0 <= xbyte (m_producer m) < 48
    /\ 0 <= index (m_producer m) < 32
    /\ 0 <= itemCount (valueFifo (m_producer m)) <= maxSize
    /\ Forall (fun v => 10 <= v <= 230) (contents maxSize (valueFifo (m_producer m)))
    /\ Forall (fun v => 0 <= v <= 230) outs
    /\ (forall g,
          active_table g !! Z.to_nat (next_index (m_producer m))
          = Some (array_get (active_table g) (next_index (m_producer m))))
    /\ length (buffer (valueFifo (m_producer m))) = Z.to_nat maxSize
    /\ 0 <= frontIndex (valueFifo (m_producer m)) < maxSize
    /\ 0 <= rearIndex (valueFifo (m_producer m)) < maxSize
    /\ (0 < itemCount (valueFifo (m_producer m)) ->
        buffer (valueFifo (m_producer m))
          !! Z.to_nat (frontIndex (valueFifo (m_producer m)))
        = Some (snd (fst (dequeue maxSize (valueFifo (m_producer m)) 0))))
    /\ (itemCount (valueFifo (m_producer m)) < maxSize -> forall d,
        buffer (snd (enqueue maxSize (valueFifo (m_producer m)) d))
          !! Z.to_nat (rearIndex (valueFifo (m_producer m)))
        = Some d).
Proof.
  intros Hin.
  destruct (run_events_ok es machine_init machine_init_ok Hin)
    as (m & outs & Hrun & (Hd & Hx & Hi & Hinv & Hall & _) & Hout).
  destruct (queue_slots_exist _ Hinv) as (Hrear & Hread & Hwrite).
  exists m, outs. do 4 (split; [assumption|]).
  split; [apply (inv_count _ _ Hinv)|].
  split; [eapply Forall_impl; [exact Hall | apply table_sample_range]|].
  split; [exact Hout|].
  split; [intros g; apply table_read;
          [apply active_table_length | apply next_index_range]|].
  split; [apply (inv_length _ _ Hinv)|].
  split; [apply (inv_front _ _ Hinv)|].
  split; [exact Hrear|]. split; [exact Hread | exact Hwrite].
Qed.

Lemma program_runs_safely_witness :
  exists m outs,
    run_events machine_init
      [Interrupt; ReadSticks 4095 0 4095; Interrupt; Deliver;
       PollARY (poll_at true 3); Interrupt; PollKLL (poll_at false 3); Deliver]
    = Some (m, outs)
    /\ 9 <= delayMillis (m_globals m) <= 48
    /\ 0 <= xbyte (m_producer m) < 48
    /\ 0 <= index (m_producer m) < 32
    /\ 0 <= itemCount (valueFifo (m_producer m)) <= maxSize
    /\ Forall (fun v => 10 <= v <= 230) (contents maxSize (valueFifo (m_producer m)))
    /\ Forall (fun v => 0 <= v <= 230) outs
    /\ (forall g,
          active_table g !! Z.to_nat (next_index (m_producer m))
          = Some (array_get (active_table g) (next_index (m_producer m))))
    /\ length (buffer (valueFifo (m_producer m))) = Z.to_nat maxSize
    /\ 0 <= frontIndex (valueFifo (m_producer m)) < maxSize
    /\ 0 <= rearIndex (valueFifo (m_producer m)) < maxSize
    /\ (0 < itemCount (valueFifo (m_producer m)) ->
        buffer (valueFifo (m_producer m))
          !! Z.to_nat (frontIndex (valueFifo (m_producer m)))
        = Some (snd (fst (dequeue maxSize (valueFifo (m_producer m)) 0))))
    /\ (itemCount (valueFifo (m_producer m)) < maxSize -> forall d,
        buffer (snd (enqueue maxSize (valueFifo (m_producer m)) d))
          !! Z.to_nat (rearIndex (valueFifo (m_producer m)))
        = Some d).
Proof.
  refine (program_runs_safely
            [Interrupt; ReadSticks 4095 0 4095; Interrupt; Deliver;
             PollARY (poll_at true 3); Interrupt; PollKLL (poll_at false 3); Deliver] _).
  repeat constructor; cbn; lia.
Defined.

Lemma poll_ary_frame (p : poll) (m : machine) :
  m_producer (poll_ary p m) = m_producer m
  /\ delayMillis (m_globals (poll_ary p m)) = delayMillis (m_globals m)
  /\ isAlive (m_globals (poll_ary p m)) = isAlive (m_globals m).
Proof.
  unfold poll_ary.
  by destruct (debounceAndToggle p (m_ary m) (isEKG (m_globals m))).
Qed.

Lemma poll_kll_frame (p : poll) (m : machine) :
  m_producer (poll_kll p m) = m_producer m
  /\ delayMillis (m_globals (poll_kll p m)) = delayMillis (m_globals m).
Proof.
  unfold poll_kll.
  by destruct (debounceAndToggle p (m_kll m) (isAlive (m_globals m))).
Qed.

(** X14.  One iteration of [loop] with no interrupt inside it, started
    in any state that a run with the interrupts between the parts of
    [loop] can reach: it completes; if the queue is empty it notifies nobody and leaves the
    queue empty; otherwise it removes exactly the oldest queued sample
    and calls [notifyClients] exactly once, with that sample scaled by
    the amplitude read from the stick in this same iteration, a value
    between 0 and the sample.  The divisor it leaves is the one computed
    from the second reading of the BPM stick. *)
Theorem loop_delivers_oldest_sample (es : list event) (i : loop_inputs) :
  Forall sticks_in_range es ->
  0 <= in_amp_stick i <= 4095 ->
  0 <= in_bpm_stick i <= 4095 ->
  0 <= in_bpm_stick_again i <= 4095 ->
  exists m outs0 m' outs,
    run_events machine_init es = Some (m, outs0)
    /\ loop i m = Some (m', outs)
    /\ delayMillis (m_globals m') = map (in_bpm_stick_again i) 0 4095 9 48
    /\ match contents maxSize (valueFifo (m_producer m)) with
       | [] => outs = [] /\ contents maxSize (valueFifo (m_producer m')) = []
       | v :: rest =>
           exists out,
             outs = [out]
             /\ scaled_sample v (amp (loop_tunables (in_amp_stick i) (in_bpm_stick i)))
                = Some out
             /\ 0 <= out <= v
             /\ contents maxSize (valueFifo (m_producer m')) = rest
       end.
Proof.
  intros Hin Ha Hr Hr'.
  destruct (run_events_ok es machine_init machine_init_ok Hin)
    as (m & outs0 & Hrun & Hok & _).
  exists m, outs0.
  set (m1 := read_sticks (in_amp_stick i) (in_bpm_stick i) (in_bpm_stick_again i) m).
  assert (Hok1 : machine_ok m1).
  { destruct (step_ok m (ReadSticks (in_amp_stick i) (in_bpm_stick i)
                           (in_bpm_stick_again i)) Hok ltac:(cbn; lia))
      as (m1' & o & [= <- <-] & Hok1 & _). exact Hok1. }
  pose proof Hok1 as (_ & _ & _ & Hinv & _ & _).
  pose proof (inv_count _ _ Hinv) as Hc.
  pose proof (contents_length maxSize (valueFifo (m_producer m1))
                (proj1 Hc)) as Hl.
  change (valueFifo (m_producer m)) with (valueFifo (m_producer m1)).
  destruct (Z.eq_dec (itemCount (valueFifo (m_producer m1))) 0) as [Hz|Hnz].
  - exists (poll_kll (in_kll i) (poll_ary (in_ary i) m1)), [].
    split; [exact Hrun|]. split.
    { unfold loop. cbn [run_events step]. fold m1.
      by rewrite (deliver_none m1 Hz). }
    destruct (poll_kll_frame (in_kll i) (poll_ary (in_ary i) m1)) as [-> ->].
    destruct (poll_ary_frame (in_ary i) m1) as (-> & -> & _).
    split; [reflexivity|].
    rewrite Hz in Hl.
    destruct (contents maxSize (valueFifo (m_producer m1))); [done | simpl in Hl; lia].
  - destruct (deliver_some m1 Hok1 ltac:(lia))
      as (v & q' & out & _ & Hcont & _ & Hs & Hb & Hdel).
    set (m2 := mkMachine (mkProducer (xbyte (m_producer m1)) (index (m_producer m1)) q')
                 (m_globals m1) (m_amp m1) (m_bpm m1) (m_ary m1) (m_kll m1)) in *.
    exists (poll_kll (in_kll i) (poll_ary (in_ary i) m2)), [out].
    split; [exact Hrun|]. split.
    { unfold loop. cbn [run_events step]. fold m1. by rewrite Hdel. }
    destruct (poll_kll_frame (in_kll i) (poll_ary (in_ary i) m2)) as [-> ->].
    destruct (poll_ary_frame (in_ary i) m2) as (-> & -> & _).
    split; [reflexivity|]. rewrite Hcont.
    exists out. split; [reflexivity|]. split; [exact Hs|]. split; [exact Hb | reflexivity].
Qed.

Lemma loop_delivers_oldest_sample_witness :
  exists m outs0 m' outs,
    run_events machine_init (replicate 18 Interrupt) = Some (m, outs0)
    /\ loop (mkLoopInputs 2048 100 200 (poll_at true 5) (poll_at true 5)) m
       = Some (m', outs)
    /\ delayMillis (m_globals m') = map 200 0 4095 9 48
    /\ match contents maxSize (valueFifo (m_producer m)) with
       | [] => outs = [] /\ contents maxSize (valueFifo (m_producer m')) = []
       | v :: rest =>
           exists out,
             outs = [out]
             /\ scaled_sample v (amp (loop_tunables 2048 100)) = Some out
             /\ 0 <= out <= v
             /\ contents maxSize (valueFifo (m_producer m')) = rest
       end.
Proof.
  refine (loop_delivers_oldest_sample (replicate 18 Interrupt)
            (mkLoopInputs 2048 100 200 (poll_at true 5) (poll_at true 5)) _ _ _ _).
  - repeat constructor.
  - cbn. lia.
  - cbn. lia.
  - cbn. lia.
Defined.

Lemma dead_sample (g : globals) (i : Z) :
  isAlive g = false -> 0 <= i < 32 -> array_get (active_table g) i = 65.
Proof.
  intros Hdead Hi. unfold active_table. rewrite Hdead.
  assert (Hget : deadPoints !! Z.to_nat i = Some 65).
  { change deadPoints with (replicate 32 65). apply lookup_replicate_2. lia. }
  unfold array_get. by rewrite (list_lookup_total_correct _ _ _ Hget).
Qed.

(** A tail of a list followed by 65s, taken twice, is again of that
    shape. *)
Lemma tail_then_flat (c : list Z) (i1 j1 i j : nat) :
  exists i' j',
    drop i (drop i1 c ++ replicate j1 65) ++ replicate j 65
    = drop i' c ++ replicate j' 65.
Proof.
  exists (i1 + i)%nat, ((j1 - (i - length (drop i1 c))) + j)%nat.
  by rewrite drop_app, drop_drop, drop_replicate, <- app_assoc, <- replicate_add.
Qed.

Lemma step_dead (m : machine) (e : event) :
  machine_ok m -> sticks_in_range e -> not_kll e ->
  isAlive (m_globals m) = false ->
  exists m' out i j,
    step m e = Some (m', out) /\ machine_ok m'
    /\ isAlive (m_globals m') = false
    /\ contents maxSize (valueFifo (m_producer m'))
       = drop i (contents maxSize (valueFifo (m_producer m))) ++ replicate j 65.
Proof.
  intros Hok Hin Hnk Hdead.
  destruct (step_ok m e Hok Hin) as (m' & out & Hstep & Hok' & _).
  pose proof Hok as (Hd & _ & _ & Hinv & _ & _).
  exists m', out.
  assert (Hshape : exists i j,
             isAlive (m_globals m') = false
             /\ contents maxSize (valueFifo (m_producer m'))
                = drop i (contents maxSize (valueFifo (m_producer m)))
                  ++ replicate j 65).
  { clear Hok'.
    destruct e as [|a r r'| |p|p]; cbn [step] in Hstep; [| | | |done].
    - (* the interrupt *)
      destruct (Z.eq_dec (next_xbyte (m_globals m) (m_producer m)) 0) as [Hz|Hnz].
      + rewrite (tick_enqueues (m_globals m) (m_producer m) ltac:(lia) Hz) in Hstep.
        rewrite (dead_sample _ _ Hdead (next_index_range _)) in Hstep.
        injection Hstep as <- <-. cbn.
        destruct (Z.lt_ge_cases (itemCount (valueFifo (m_producer m))) maxSize)
          as [Hlt|Hge].
        * destruct (enqueue_accepts maxSize eq_refl _ 65 Hinv Hlt)
            as (q' & Henq & _ & Hcont).
          exists 0%nat, 1%nat. rewrite Henq. cbn [snd].
          by rewrite Hcont, drop_0.
        * rewrite (enqueue_rejects maxSize _ 65 Hge). cbn [snd].
          exists 0%nat, 0%nat. by rewrite drop_0, app_nil_r.
      + rewrite (tick_skips (m_globals m) (m_producer m) ltac:(lia) Hnz) in Hstep.
        injection Hstep as <- <-. cbn.
        exists 0%nat, 0%nat. by rewrite drop_0, app_nil_r.
    - (* the sticks *)
      injection Hstep as <- <-. cbn.
      exists 0%nat, 0%nat. by rewrite drop_0, app_nil_r.
    - (* the delivery *)
      destruct (Z.eq_dec (itemCount (valueFifo (m_producer m))) 0) as [Hz|Hnz].
      + rewrite (deliver_none m Hz) in Hstep. injection Hstep as <- <-.
        exists 0%nat, 0%nat. by rewrite drop_0, app_nil_r.
      + pose proof (inv_count _ _ Hinv) as Hc.
        destruct (deliver_some m Hok ltac:(lia))
          as (v & q' & o & _ & Hcont & _ & _ & _ & Hdel).
        rewrite Hdel in Hstep. injection Hstep as <- <-. cbn.
        exists 1%nat, 0%nat. by rewrite Hcont, app_nil_r.
    - (* the ARY button *)
      injection Hstep as <- <-.
      destruct (poll_ary_frame p m) as (Hp & _ & Ha).
      exists 0%nat, 0%nat. by rewrite Hp, Ha, drop_0, app_nil_r. }
  destruct Hshape as (i & j & Hdead' & Hcont').
  exists i, j. by repeat (split; [assumption|]).
Qed.

Lemma run_dead (es : list event) : forall m,
  machine_ok m -> Forall sticks_in_range es -> Forall not_kll es ->
  isAlive (m_globals m) = false ->
  exists m' outs i j,
    run_events m es = Some (m', outs)
    /\ isAlive (m_globals m') = false
    /\ contents maxSize (valueFifo (m_producer m'))
       = drop i (contents maxSize (valueFifo (m_producer m))) ++ replicate j 65.
Proof.
  induction es as [|e es IH]; intros m Hok Hin Hnk Hdead.
  - exists m, [], 0%nat, 0%nat. by rewrite drop_0, app_nil_r.
  - apply Forall_cons in Hin as [He Hin]. apply Forall_cons in Hnk as [Hk Hnk].
    destruct (step_dead m e Hok He Hk Hdead)
      as (m1 & out1 & i1 & j1 & Hstep & Hok1 & Hdead1 & Hc1).
    destruct (IH m1 Hok1 Hin Hnk Hdead1) as (m2 & out2 & i & j & Hrun & Hdead2 & Hc2).
    destruct (tail_then_flat (contents maxSize (valueFifo (m_producer m))) i1 j1 i j)
      as (i' & j' & Hshape).
    exists m2, (out1 ++ out2), i', j'. cbn [run_events]. rewrite Hstep, Hrun.
    split; [reflexivity|]. split; [exact Hdead2|].
    by rewrite Hc2, Hc1, Hshape.
Qed.

(** X15.  The kill switch acts on what is produced, not on what is
    already queued.  In runs whose interrupts fall between the parts of
    [loop]: once [isAlive] is false, and for as long as the KLL button is
    not polled, whichever of the other events happen (interrupts, stick
    readings, deliveries, the ARY button) the queue always consists of
    a tail of what it held when [isAlive] became false, followed by
    samples that are all 65; [isAlive] stays false. *)
Theorem flatline_follows_queued_samples (es0 es : list event) :
  Forall sticks_in_range es0 ->
  Forall sticks_in_range es ->
  Forall not_kll es ->
  exists m outs0,
    run_events machine_init es0 = Some (m, outs0)
    /\ (isAlive (m_globals m) = false ->
        exists m' outs i j,
          run_events m es = Some (m', outs)
          /\ isAlive (m_globals m') = false
          /\ contents maxSize (valueFifo (m_producer m'))
             = drop i (contents maxSize (valueFifo (m_producer m)))
               ++ replicate j 65).
Proof.
  intros Hin0 Hin Hnk.
  destruct (run_events_ok es0 machine_init machine_init_ok Hin0)
    as (m & outs0 & Hrun & Hok & _).
  exists m, outs0. split; [exact Hrun|].
  intros Hdead. by apply run_dead.
Qed.

Lemma flatline_follows_queued_samples_witness :
  exists m outs0,
    run_events machine_init
      (replicate 27 Interrupt
       ++ [PollKLL (poll_at true 10); PollKLL (poll_at true 70);
           PollKLL (poll_at false 100); PollKLL (poll_at false 160)])
    = Some (m, outs0)
    /\ (isAlive (m_globals m) = false ->
        exists m' outs i j,
          run_events m (Deliver :: replicate 18 Interrupt ++ [PollARY (poll_at true 200)])
          = Some (m', outs)
          /\ isAlive (m_globals m') = false
          /\ contents maxSize (valueFifo (m_producer m'))
             = drop i (contents maxSize (valueFifo (m_producer m)))
               ++ replicate j 65).
Proof.
  refine (flatline_follows_queued_samples
            (replicate 27 Interrupt
             ++ [PollKLL (poll_at true 10); PollKLL (poll_at true 70);
                 PollKLL (poll_at false 100); PollKLL (poll_at false 160)])
            (Deliver :: replicate 18 Interrupt ++ [PollARY (poll_at true 200)])
            _ _ _).
  - repeat constructor.
  - repeat constructor.
  - repeat constructor.
Defined.

(** The run of the witness above does end with [isAlive] false and three
    samples queued. *)
Example kill_switch_run :
  match run_events machine_init
          (replicate 27 Interrupt
           ++ [PollKLL (poll_at true 10); PollKLL (poll_at true 70);
               PollKLL (poll_at false 100); PollKLL (poll_at false 160)]) with
  | Some (m, _) =>
      isAlive (m_globals m) = false
      /\ contents maxSize (valueFifo (m_producer m)) = [65; 65; 65]
  | None => False
  end.
Proof. vm_compute. split; reflexivity. Qed.
